(** * clean_data.py: cleaning and standardising election tweet datasets

    A shallow embedding of [clean_text], [is_english] and [load_and_clean],
    together with the parts of the Python runtime they call ([str] methods,
    the [re] matcher and [re.sub], [html.unescape]) and the pandas operations
    [load_and_clean] performs on a frame.

    Python strings are sequences of Unicode code points, so a string is a
    [list Z].  The Unicode character database and the HTML5 entity table are
    data of the interpreter, not of this repository: they are the fields of
    the class [PyLib], and every definition takes them as a parameter. *)

From Stdlib Require Import ZArith String Ascii List Lia Bool.
From stdpp Require Import base tactics option list gmap.

Local Open Scope Z_scope.

(** ** Strings *)

Abbreviation str := (list Z).

(** Decoding of the UTF-8 bytes of a literal of this file into code points. *)
Fixpoint utf8 (bs : list Z) : str :=
  match bs with
  | [] => []
  | b :: r =>
      if b <? 128 then b :: utf8 r
      else if b <? 224 then
        match r with
        | b2 :: r2 => ((b mod 32) * 64 + b2 mod 64) :: utf8 r2
        | _ => []
        end
      else if b <? 240 then
        match r with
        | b2 :: b3 :: r3 => ((b mod 16) * 4096 + (b2 mod 64) * 64 + b3 mod 64) :: utf8 r3
        | _ => []
        end
      else
        match r with
        | b2 :: b3 :: b4 :: r4 =>
            ((b mod 8) * 262144 + (b2 mod 64) * 4096 + (b3 mod 64) * 64 + b4 mod 64) :: utf8 r4
        | _ => []
        end
  end.

Definition lit (s : string) : str :=
  utf8 (map (λ a, Z.of_N (N_of_ascii a)) (list_ascii_of_string s)).

(** The objects a cell of a frame read with [dtype=str] can hold (a string or
    the float NaN of a missing value), and [None]. *)
Inductive pyval :=
| PyNone
| PyStr (s : str)
| PyNaN.

#[global] Instance pyval_eq_dec : EqDecision pyval.
Proof. solve_decision. Defined.

#[global] Instance pyval_countable : Countable pyval.
Proof.
  refine (inj_countable'
    (λ v, match v with PyNone => inl false | PyNaN => inl true | PyStr s => inr s end)
    (λ x, match x with inl false => PyNone | inl true => PyNaN | inr s => PyStr s end) _).
  by intros [].
Defined.

(** [str(x)] *)
Definition py_str (v : pyval) : str :=
  match v with
  | PyNone => lit "None"
  | PyStr s => s
  | PyNaN => lit "nan"
  end.

(** [bool(x)]: the empty string and [None] are false, NaN (a non-zero float) is true. *)
Definition truthy (v : pyval) : bool :=
  match v with
  | PyNone => false
  | PyStr [] => false
  | PyStr (_ :: _) => true
  | PyNaN => true
  end.

(** The tables of the interpreter that the code consults. *)
Class PyLib := {
  (** [Py_UNICODE_ISALNUM] *)
  isalnum : Z → bool;
  (** [_PyUnicode_ToLowerFull]: the full lower-case mapping of one code point *)
  tolower_full : Z → str;
  (** [_PyUnicode_IsCased] *)
  is_cased : Z → bool;
  (** [_PyUnicode_IsCaseIgnorable] *)
  is_case_ignorable : Z → bool;
  (** [html.entities.html5] *)
  html5 : str → option str;
}.

Definition between (lo hi c : Z) : bool := (lo <=? c) && (c <=? hi).

(** [Py_UNICODE_ISSPACE]: what [\s] matches in a [str] pattern and what
    [str.strip()] removes. *)
Definition is_space (c : Z) : bool :=
  between 0x09 0x0D c || between 0x1C 0x20 c || (c =? 0x85) || (c =? 0xA0)
  || (c =? 0x1680) || between 0x2000 0x200A c || (c =? 0x2028) || (c =? 0x2029)
  || (c =? 0x202F) || (c =? 0x205F) || (c =? 0x3000).

(** [\w] in a [str] pattern: alphanumeric or the underscore. *)
Definition is_word `{PyLib} (c : Z) : bool := isalnum c || (c =? 0x5F).

(** [str.isascii()] *)
Definition isascii (s : str) : bool := forallb (λ c, c <? 128) s.

Fixpoint lstrip (s : str) : str :=
  match s with
  | [] => []
  | c :: r => if is_space c then lstrip r else s
  end.

Definition rstrip (s : str) : str := rev (lstrip (rev s)).

(** [str.strip()] *)
Definition strip (s : str) : str := rstrip (lstrip s).

(** [str.startswith(prefix)] *)
Fixpoint startswith (prefix s : str) : bool :=
  match prefix, s with
  | [], _ => true
  | p :: ps, c :: r => (p =? c) && startswith ps r
  | _ :: _, [] => false
  end.

(** [str.replace(old, new)] for one-character [old] and [new]. *)
Definition replace_char (old new : Z) (s : str) : str :=
  map (λ c, if c =? old then new else c) s.

(** [str.lower()], as [do_lower] of unicodeobject.c: every code point is
    replaced by its full lower-case mapping, except GREEK CAPITAL LETTER SIGMA
    whose image depends on the characters around it. *)
Fixpoint skip_ignorable `{PyLib} (s : str) : option Z :=
  match s with
  | [] => None
  | c :: r => if is_case_ignorable c then skip_ignorable r else Some c
  end.

(** [before] holds the characters to the left of the sigma, nearest first. *)
Definition handle_capital_sigma `{PyLib} (before after : str) : Z :=
  let final_sigma :=
    match skip_ignorable before with
    | Some c => is_cased c
    | None => false
    end
    && match skip_ignorable after with
       | Some c => negb (is_cased c)
       | None => true
       end in
  if final_sigma then 0x3C2 else 0x3C3.

Fixpoint do_lower `{PyLib} (before s : str) : str :=
  match s with
  | [] => []
  | c :: r =>
      (if c =? 0x3A3 then [handle_capital_sigma before r] else tolower_full c)
      ++ do_lower (c :: before) r
  end.

Definition lower `{PyLib} (s : str) : str := do_lower [] s.

(** [sys.get_int_max_str_digits()], as the interpreter starts: the longest
    string of decimal digits that [int()] reads and that [str()] writes. *)
Definition int_max_str_digits : nat := 4300.

(** [str(n)] for an [int] of at most [int_max_str_digits] digits. *)
Fixpoint digits (fuel : nat) (n : Z) (acc : str) : str :=
  match fuel with
  | O => acc
  | S f =>
      let acc := (48 + n mod 10) :: acc in
      if n <? 10 then acc else digits f (n / 10) acc
  end.

Definition str_of_int (n : Z) : str :=
  if n <? 0 then 45 :: digits (Z.to_nat (- n)) (- n) []
  else digits (S (Z.to_nat n)) n [].

(** [str(n)] returns: the int has no more digits than the limit.  Above it
    [str()] raises [ValueError]. *)
Definition printable (n : Z) : bool :=
  (length (digits (S (Z.to_nat (Z.abs n))) (Z.abs n) []) <=? int_max_str_digits)%nat.

(** ** Exceptions *)

Inductive exn :=
| KeyError (key : str)
| AttributeError
| LangDetectException
| OtherError (name : str).

Inductive result (A : Type) :=
| Ok (a : A)
| Raise (e : exn).
Arguments Ok {A} a.
Arguments Raise {A} e.

(** ** The [re] matcher

    A backtracking matcher with the priorities of [sre]: the first
    alternative first, a repetition from its longest to its shortest.  It
    covers what the patterns of this program use: character classes,
    literals, concatenation, alternation, [?], a repeated class with bounds
    ([*], [+], [{m,n}]), one capturing group and [^]. *)
Module Re.

Inductive regex :=
| Chr (p : Z → bool)
| Cat (r1 r2 : regex)
| Alt (r1 r2 : regex)
| Opt (r : regex)
| Rep (p : Z → bool) (lo : nat) (hi : option nat)
| Grp (r : regex)
| Bol.

(** A continuation receives: whether the position is still the start of the
    string, the text captured by group 1, and the rest of the subject. *)
Definition cont (A : Type) : Type := bool → option str → str → option A.

Fixpoint rep {A} (p : Z → bool) (lo : nat) (hi : option nat)
    (b : bool) (g : option str) (s : str) (k : cont A) : option A :=
  let stop := match lo with O => k b g s | S _ => None end in
  match s with
  | [] => stop
  | c :: s' =>
      if p c && match hi with Some O => false | _ => true end
      then match rep p (Nat.pred lo) (Nat.pred <$> hi) false g s' k with
           | Some x => Some x
           | None => stop
           end
      else stop
  end.

Fixpoint rmatch {A} (r : regex) (b : bool) (g : option str) (s : str)
    (k : cont A) : option A :=
  match r with
  | Chr p =>
      match s with
      | c :: s' => if p c then k false g s' else None
      | [] => None
      end
  | Cat r1 r2 => rmatch r1 b g s (λ b' g' s', rmatch r2 b' g' s' k)
  | Alt r1 r2 =>
      match rmatch r1 b g s k with
      | Some x => Some x
      | None => rmatch r2 b g s k
      end
  | Opt r1 =>
      match rmatch r1 b g s k with
      | Some x => Some x
      | None => k b g s
      end
  | Rep p lo hi => rep p lo hi b g s k
  | Grp r1 =>
      rmatch r1 b g s (λ b' _ s', k b' (Some (take (length s - length s') s)) s')
  | Bol => if b then k b g s else None
  end.

(** A match of [r] that starts at the head of [s]: the text of group 1 and
    what follows the match.  With [must_advance] an empty match is refused
    and the matcher backtracks to a longer one. *)
Definition match_at (r : regex) (b must_advance : bool) (s : str)
    : option (option str * str) :=
  rmatch r b None s
    (λ _ g s', if must_advance && (length s' =? length s)%nat then None
               else Some (g, s')).

(** [pattern.sub(repl, s)]: the matches are searched from left to right and
    do not overlap; [skip] counts the characters of the current match that
    are still to be passed.  After an empty match the search at the same
    position must advance. *)
Fixpoint sub_from (r : regex) (repl : option str → str) (b : bool)
    (skip : nat) (s : str) {struct s} : str :=
  match s with
  | [] =>
      match skip with
      | S _ => []
      | O =>
          match match_at r b false [] with
          | Some (g, _) => repl g
          | None => []
          end
      end
  | c :: s' =>
      match skip with
      | S n => sub_from r repl false n s'
      | O =>
          match match_at r b false s with
          | Some (g, rest) =>
              repl g ++
              match (length s - length rest)%nat with
              | S n => sub_from r repl false n s'
              | O =>
                  match match_at r b true s with
                  | Some (g', rest') =>
                      repl g' ++ sub_from r repl false (Nat.pred (length s - length rest')) s'
                  | None => c :: sub_from r repl false 0 s'
                  end
              end
          | None => c :: sub_from r repl false 0 s'
          end
      end
  end.

Definition sub (r : regex) (repl : option str → str) (s : str) : str :=
  sub_from r repl true 0 s.

(** Two pieces of a result that may not come about, the left one first. *)
Definition prepend (a k : result str) : result str :=
  match a with
  | Ok t => match k with Ok u => Ok (t ++ u) | Raise e => Raise e end
  | Raise e => Raise e
  end.

(** [pattern.sub(repl, s)] for a function [repl] that may raise: it is called
    on the matches from left to right, and its first exception ends the
    substitution. *)
Fixpoint sub_from_r (r : regex) (repl : option str → result str) (b : bool)
    (skip : nat) (s : str) {struct s} : result str :=
  match s with
  | [] =>
      match skip with
      | S _ => Ok []
      | O =>
          match match_at r b false [] with
          | Some (g, _) => repl g
          | None => Ok []
          end
      end
  | c :: s' =>
      match skip with
      | S n => sub_from_r r repl false n s'
      | O =>
          match match_at r b false s with
          | Some (g, rest) =>
              prepend (repl g)
                match (length s - length rest)%nat with
                | S n => sub_from_r r repl false n s'
                | O =>
                    match match_at r b true s with
                    | Some (g', rest') =>
                        prepend (repl g')
                          (sub_from_r r repl false (Nat.pred (length s - length rest')) s')
                    | None => prepend (Ok [c]) (sub_from_r r repl false 0 s')
                    end
                end
          | None => prepend (Ok [c]) (sub_from_r r repl false 0 s')
          end
      end
  end.

Definition sub_r (r : regex) (repl : option str → result str) (s : str) : result str :=
  sub_from_r r repl true 0 s.

(** The replacement template [r"\1"]; a group that did not take part in the
    match expands to the empty string. *)
Definition backref1 (g : option str) : str := default [] g.

(** A literal character, and a literal character under [re.IGNORECASE]:
    the two cases of an ASCII letter, with the extra equivalences [sre]
    knows for [i], [k] and [s]. *)
Definition chr (c : Z) : regex := Chr (Z.eqb c).

Definition ichr_class (c x : Z) : bool :=
  let lc := if between 65 90 c then c + 32 else c in
  if between 97 122 lc then
    (x =? lc) || (x =? lc - 32)
    || ((lc =? 105) && ((x =? 0x130) || (x =? 0x131)))
    || ((lc =? 107) && (x =? 0x212A))
    || ((lc =? 115) && (x =? 0x17F))
  else x =? c.

Definition ichr (c : Z) : regex := Chr (ichr_class c).

Fixpoint seq (rs : list regex) (last : regex) : regex :=
  match rs with
  | [] => last
  | r :: rs' => Cat r (seq rs' last)
  end.

Definition star (p : Z → bool) : regex := Rep p 0 None.
Definition plus (p : Z → bool) : regex := Rep p 1 None.

End Re.

(** ** [html.unescape] *)
Module Html.

Definition is_digit (c : Z) : bool := between 48 57 c.

Definition is_hexdigit (c : Z) : bool :=
  between 48 57 c || between 97 102 c || between 65 70 c.

(** The class [[^\t\n\f <&#;]] *)
Definition is_name_char (c : Z) : bool :=
  negb ((c =? 9) || (c =? 10) || (c =? 12) || (c =? 32) || (c =? 60)
        || (c =? 38) || (c =? 35) || (c =? 59)).

(** [&(#[0-9]+;?|#[xX][0-9a-fA-F]+;?|[^\t\n\f <&#;]{1,32};?)] *)
Definition _charref : Re.regex :=
  Re.Cat (Re.chr 38)
    (Re.Grp
       (Re.Alt (Re.seq [Re.chr 35; Re.plus is_digit] (Re.Opt (Re.chr 59)))
          (Re.Alt
             (Re.seq [Re.chr 35; Re.Chr (λ c, (c =? 120) || (c =? 88)); Re.plus is_hexdigit]
                (Re.Opt (Re.chr 59)))
             (Re.Cat (Re.Rep is_name_char 1 (Some 32%nat)) (Re.Opt (Re.chr 59)))))).

Definition _invalid_charrefs : list (Z * Z) :=
  [ (0x00, 0xfffd); (0x0d, 0x0d); (0x80, 0x20ac); (0x81, 0x81); (0x82, 0x201a);
    (0x83, 0x0192); (0x84, 0x201e); (0x85, 0x2026); (0x86, 0x2020); (0x87, 0x2021);
    (0x88, 0x02c6); (0x89, 0x2030); (0x8a, 0x0160); (0x8b, 0x2039); (0x8c, 0x0152);
    (0x8d, 0x8d); (0x8e, 0x017d); (0x8f, 0x8f); (0x90, 0x90); (0x91, 0x2018);
    (0x92, 0x2019); (0x93, 0x201c); (0x94, 0x201d); (0x95, 0x2022); (0x96, 0x2013);
    (0x97, 0x2014); (0x98, 0x02dc); (0x99, 0x2122); (0x9a, 0x0161); (0x9b, 0x203a);
    (0x9c, 0x0153); (0x9d, 0x9d); (0x9e, 0x017e); (0x9f, 0x0178) ].

Definition _invalid_codepoints (n : Z) : bool :=
  between 0x1 0x8 n || between 0xe 0x1f n || between 0x7f 0x9f n
  || between 0xfdd0 0xfdef n || (n =? 0xb)
  || (between 0xfffe 0x10ffff n && (0xfffe <=? n mod 0x10000)).

Definition digit_value (c : Z) : Z :=
  if between 48 57 c then c - 48
  else if between 97 102 c then c - 87
  else c - 55.

(** [int(s, base)] on a string of digits of that base.  In a base that is
    not a power of two a string of more than [int_max_str_digits] digits is
    a [ValueError]. *)
Definition int_of (base : Z) (s : str) : result Z :=
  if (base =? 10) && (int_max_str_digits <? length s)%nat
  then Raise (OtherError (lit "ValueError"))
  else Ok (fold_left (λ acc c, acc * base + digit_value c) s 0).

(** [s.rstrip(';')] *)
Fixpoint lstrip_semi (s : str) : str :=
  match s with
  | [] => []
  | c :: r => if c =? 59 then lstrip_semi r else s
  end.

Definition rstrip_semi (s : str) : str := rev (lstrip_semi (rev s)).

(** The loop [for x in range(len(s)-1, 1, -1)] of the named branch. *)
Fixpoint longest_name `{PyLib} (x : nat) (s : str) : str :=
  match x with
  | S x' =>
      if (2 <=? x)%nat then
        match html5 (take x s) with
        | Some v => v ++ drop x s
        | None => longest_name x' s
        end
      else 38 :: s
  | O => 38 :: s
  end.

Definition _replace_charref `{PyLib} (g : option str) : result str :=
  let s := default [] g in
  match s with
  | 35 :: s1 =>
      match
        match s1 with
        | 120 :: s2 | 88 :: s2 => int_of 16 (rstrip_semi s2)
        | _ => int_of 10 (rstrip_semi s1)
        end
      with
      | Raise e => Raise e
      | Ok num =>
          Ok match List.find (λ e, fst e =? num) _invalid_charrefs with
             | Some e => [snd e]
             | None =>
                 if between 0xD800 0xDFFF num || (0x10FFFF <? num) then [0xFFFD]
                 else if _invalid_codepoints num then []
                 else [num]
             end
      end
  | _ =>
      Ok match html5 s with
         | Some v => v
         | None => longest_name (length s - 1) s
         end
  end.

(** [html.unescape(s)]; it raises what [_replace_charref] raises. *)
Definition unescape `{PyLib} (s : str) : result str :=
  if negb (existsb (Z.eqb 38) s) then Ok s
  else Re.sub_r _charref _replace_charref s.

End Html.

(** ** The cleaning rules of the module *)
Section Cleaning.
Context `{PyLib}.

(** [re.compile(r"https?://\S+|www\.\S+", re.IGNORECASE)] *)
Definition URL_RE : Re.regex :=
  Re.Alt
    (Re.seq [Re.ichr 104; Re.ichr 116; Re.ichr 116; Re.ichr 112; Re.Opt (Re.ichr 115);
             Re.ichr 58; Re.ichr 47; Re.ichr 47]
       (Re.plus (λ c, negb (is_space c))))
    (Re.seq [Re.ichr 119; Re.ichr 119; Re.ichr 119; Re.ichr 46]
       (Re.plus (λ c, negb (is_space c)))).

(** [re.compile(r"@\w+", re.UNICODE)] *)
Definition MENTION_RE : Re.regex := Re.Cat (Re.chr 64) (Re.plus is_word).

(** [re.compile(r"#(\w+)", re.UNICODE)] *)
Definition HASHTAG_RE : Re.regex := Re.Cat (Re.chr 35) (Re.Grp (Re.plus is_word)).

(** [re.compile(r"^\s*rt\s+", re.IGNORECASE)] *)
Definition RT_RE : Re.regex :=
  Re.seq [Re.Bol; Re.star is_space; Re.ichr 114; Re.ichr 116] (Re.plus is_space).

(** [re.compile(r"\s+")] *)
Definition MULTISPACE_RE : Re.regex := Re.plus is_space.

(** [EMOJI_RE], a pattern for one or more characters of these ranges.  The
    module compiles it and applies it nowhere. *)
Definition EMOJI_RE : Re.regex :=
  Re.plus
    (λ c, between 0x1F600 0x1F64F c || between 0x1F300 0x1F5FF c
          || between 0x1F680 0x1F6FF c || between 0x1F1E0 0x1F1FF c
          || between 0x2500 0x2BEF c || between 0x2702 0x27B0 c
          || between 0x2702 0x27B0 c || between 0x24C2 0x1F251 c
          || between 0x1F926 0x1F937 c || between 0x10000 0x10FFFF c
          || between 0x2640 0x2642 c || between 0x2600 0x2B55 c
          || (c =? 0x200D) || (c =? 0x23CF) || (c =? 0x23E9) || (c =? 0x231A)
          || (c =? 0xFE0F) || (c =? 0x3030)).

(** The four substitutions of [clean_text] that remove the markers of a
    tweet: the retweet marker, URLs, mentions and the hashtag sign. *)
Definition strip_markers (text : str) : str :=
  let text := Re.sub RT_RE (λ _, []) text in
  let text := Re.sub URL_RE (λ _, []) text in
  let text := Re.sub MENTION_RE (λ _, []) text in
  Re.sub HASHTAG_RE Re.backref1 text.

(** The statements of [clean_text] up to the hashtag rule: what rewrites
    tokens of the tweet.  The unescaping may raise. *)
Definition strip_tokens (text : str) : result str :=
  match Html.unescape text with
  | Ok text => Ok (strip_markers text)
  | Raise e => Raise e
  end.

(** The remaining statements: line breaks, runs of white space, the ends
    and the case. *)
Definition normalize_space (text : str) : str :=
  let text := replace_char 13 32 (replace_char 10 32 text) in
  let text := Re.sub MULTISPACE_RE (λ _, [32]) text in
  lower (strip text).

Definition clean_text (text : pyval) : result str :=
  match text with
  | PyNone => Ok []
  | _ =>
      match strip_tokens (py_str text) with
      | Ok text => Ok (normalize_space text)
      | Raise e => Raise e
      end
  end.

End Cleaning.

(** ** The tables on the Basic Latin block

    Tables for evaluating the program on concrete tweets: the
    character database restricted to U+0000..U+007F (every other code point
    is taken to be caseless and not alphanumeric, which is what the database
    says of an emoji), and the entity table restricted to the entities that
    XML predefines. *)
Module Latin.

Definition isalnum (c : Z) : bool :=
  between 48 57 c || between 65 90 c || between 97 122 c.

Definition tolower_full (c : Z) : str :=
  if between 65 90 c then [c + 32] else [c].

Definition is_cased (c : Z) : bool := between 65 90 c || between 97 122 c.

Definition is_case_ignorable (c : Z) : bool :=
  (c =? 39) || (c =? 46) || (c =? 58) || (c =? 94) || (c =? 96).

Definition entities : list (str * str) :=
  [ (lit "amp;", lit "&"); (lit "amp", lit "&"); (lit "AMP;", lit "&"); (lit "AMP", lit "&");
    (lit "lt;", lit "<"); (lit "lt", lit "<"); (lit "LT;", lit "<"); (lit "LT", lit "<");
    (lit "gt;", lit ">"); (lit "gt", lit ">"); (lit "GT;", lit ">"); (lit "GT", lit ">");
    (lit "quot;", [34]); (lit "quot", [34]); (lit "QUOT;", [34]); (lit "QUOT", [34]);
    (lit "apos;", lit "'") ].

Definition html5 (name : str) : option str :=
  snd <$> List.find (λ e, bool_decide (fst e = name)) entities.

Definition lib : PyLib :=
  Build_PyLib isalnum tolower_full is_cased is_case_ignorable html5.

End Latin.

(** ** Frames

    A frame is its column labels and its rows; a row holds one cell per
    column, in the order of the labels.  Labels are looked up by their first
    occurrence, which is what pandas does when the labels are distinct. *)
Record DataFrame := {
  columns : list str;
  rows : list (list pyval);
}.

(** An entry of [FILES].  The year is an int literal, which [str()] and
    the f-string of [main] write: it stays below the limit of the conversion,
    as every literal of [FILES] does. *)
Record Config := {
  path : str;
  label : str;
  year : Z;
  id_col : str;
  text_col : str;
  date_col : str;
  year_prints : printable year = true;
}.

(** [Series.apply(f)] for a function that may raise: [f] is called on the
    elements in order, and its first exception ends the call. *)
Fixpoint map_r {A B} (f : A → result B) (l : list A) : result (list B) :=
  match l with
  | [] => Ok []
  | x :: l' =>
      match f x with
      | Ok y => match map_r f l' with Ok ys => Ok (y :: ys) | Raise e => Raise e end
      | Raise e => Raise e
      end
  end.

Definition col_index (col : str) (cols : list str) : option nat :=
  fst <$> list_find (λ c, c = col) cols.

Definition cell_at (i : nat) (row : list pyval) : pyval := default PyNaN (row !! i).

(** [df[col]] for one label: the column, or [KeyError]. *)
Definition getitem (df : DataFrame) (col : str) : result (list pyval) :=
  match col_index col (columns df) with
  | Some i => Ok (map (cell_at i) (rows df))
  | None => Raise (KeyError col)
  end.

(** [df[col] = values]: an existing column is overwritten in place, a new
    one is added as the last column. *)
Definition setitem (df : DataFrame) (col : str) (values : list pyval) : DataFrame :=
  match col_index col (columns df) with
  | Some i =>
      {| columns := columns df;
         rows := zip_with (λ row v, <[i := v]> row) (rows df) values |}
  | None =>
      {| columns := columns df ++ [col];
         rows := zip_with (λ row v, row ++ [v]) (rows df) values |}
  end.

(** [df[col] = value] for a scalar, broadcast to every row. *)
Definition setitem_scalar (df : DataFrame) (col : str) (value : pyval) : DataFrame :=
  setitem df col (replicate (length (rows df)) value).

(** Selection by a boolean mask. *)
Fixpoint select {A} (mask : list bool) (l : list A) : list A :=
  match mask, l with
  | b :: mask', x :: l' => if b then x :: select mask' l' else select mask' l'
  | _, _ => []
  end.

(** [df[mask]] *)
Definition select_rows (mask : list bool) (df : DataFrame) : DataFrame :=
  {| columns := columns df; rows := select mask (rows df) |}.

(** [df.drop(columns=labels)] *)
Definition drop_columns (labels : list str) (df : DataFrame) : DataFrame :=
  let keep := map (λ c, negb (bool_decide (c ∈ labels))) (columns df) in
  {| columns := select keep (columns df); rows := map (select keep) (rows df) |}.

(** [df.rename(columns=mapping)]: labels that are not keys stay. *)
Definition rename (mapping : gmap str str) (df : DataFrame) : DataFrame :=
  {| columns := map (λ c, default c (mapping !! c)) (columns df); rows := rows df |}.

(** [Series.duplicated(keep="first")]: true at every occurrence of a value
    but its first; two missing values count as equal. *)
Fixpoint duplicated (seen : gset pyval) (keys : list pyval) : list bool :=
  match keys with
  | [] => []
  | k :: keys' => bool_decide (k ∈ seen) :: duplicated ({[k]} ∪ seen) keys'
  end.

(** [df.drop_duplicates(subset=[col], keep="first")] *)
Definition drop_duplicates (col : str) (df : DataFrame) : result DataFrame :=
  match getitem df col with
  | Ok keys => Ok (select_rows (map negb (duplicated ∅ keys)) df)
  | Raise e => Raise e
  end.

(** [df[cols]] for a list of labels. *)
Fixpoint col_indices (cols : list str) (have : list str) : result (list nat) :=
  match cols with
  | [] => Ok []
  | c :: cols' =>
      match col_index c have with
      | Some i =>
          match col_indices cols' have with
          | Ok idx => Ok (i :: idx)
          | Raise e => Raise e
          end
      | None => Raise (KeyError c)
      end
  end.

Definition project (cols : list str) (df : DataFrame) : result DataFrame :=
  match col_indices cols (columns df) with
  | Ok idx =>
      Ok {| columns := cols;
            rows := map (λ row, map (λ i, cell_at i row) idx) (rows df) |}
  | Raise e => Raise e
  end.

(** Line 22, [from langdetect import LangDetectException, detect]: what the
    name [detect] is bound to once the module is loaded, given the package
    that is installed, if any.  The import is not guarded, so the module does
    not load without the package. *)
Definition import_detect {D : Type} (package : option (pyval → D → result str * D))
    : result (option (pyval → D → result str * D)) :=
  match package with
  | Some det => Ok (Some det)
  | None => Raise (OtherError (lit "ModuleNotFoundError"))
  end.

(** ** The pipeline of one source *)
Section Pipeline.
Context `{PyLib}.

(** The state of the language detector (its random generator), the name
    [detect] of the module, which holds the detector or [None], and the
    reader of CSV files. *)
Context {D : Type}.
Variable detect : option (pyval → D → result str * D).
Variable read_csv : str → result DataFrame.

(** Computations that may raise and that advance the detector. *)
Definition M (A : Type) : Type := D → result A * D.

Definition ret {A} (a : A) : M A := λ d, (Ok a, d).

Definition lift {A} (r : result A) : M A := λ d, (r, d).

Definition bind {A B} (m : M A) (k : A → M B) : M B :=
  λ d, match m d with
       | (Ok a, d') => k a d'
       | (Raise e, d') => (Raise e, d')
       end.

Notation "'do' x <- m ; k" := (bind m (λ x, k))
  (at level 10, x name, m at level 100, k at level 200).

(** [Series.apply(f)]: [f] is called on the elements in order. *)
Fixpoint apply {A B} (f : A → M B) (l : list A) : M (list B) :=
  match l with
  | [] => ret []
  | x :: l' => do y <- f x; do ys <- apply f l'; ret (y :: ys)
  end.

(** [text.isascii()]: a method of [str] only. *)
Definition isascii_method (text : pyval) : result bool :=
  match text with
  | PyStr s => Ok (isascii s)
  | _ => Raise AttributeError
  end.

Definition is_english (text : pyval) : M bool :=
  λ d,
    if negb (truthy text) then (Ok false, d)
    else
      match detect with
      | None => (isascii_method text, d)
      | Some det =>
          match det text d with
          | (Ok lang, d') => (Ok (bool_decide (lang = lit "en")), d')
          | (Raise LangDetectException, d') => (Ok false, d')
          | (Raise e, d') => (Raise e, d')
          end
      end.

(** Lines 120-129: the unnamed and blank columns are dropped, the configured
    columns renamed.  In the dict literal a later key replaces an equal
    earlier one. *)
Definition reconcile (config : Config) (df : DataFrame) : DataFrame :=
  let drop_cols :=
    List.filter (λ col, startswith (lit "Unnamed") col || bool_decide (strip col = []))
      (columns df) in
  let df := if bool_decide (drop_cols ≠ []) then drop_columns drop_cols df else df in
  let rename_map : gmap str str :=
    <[text_col config := lit "text"]>
      (<[date_col config := lit "created_at"]>
         {[id_col config := lit "tweet_id"]}) in
  rename rename_map df.

(** Lines 131-132 *)
Definition stamp (config : Config) (df : DataFrame) : DataFrame :=
  let df := setitem_scalar df (lit "label") (PyStr (label config)) in
  setitem_scalar df (lit "year") (PyStr (str_of_int (year config))).

(** Line 134: [df["text"] = df["text"].apply(clean_text)] *)
Definition clean_column (df : DataFrame) : result DataFrame :=
  match getitem df (lit "text") with
  | Ok text =>
      match map_r clean_text text with
      | Ok cleaned => Ok (setitem df (lit "text") (map PyStr cleaned))
      | Raise e => Raise e
      end
  | Raise e => Raise e
  end.

(** Line 136: [df = df[df["text"].apply(is_english)]] *)
Definition filter_english (df : DataFrame) : M DataFrame :=
  do text <- lift (getitem df (lit "text"));
  do mask <- apply is_english text;
  ret (select_rows mask df).

(** Line 138: [df = df[df["text"].astype(bool)]] *)
Definition filter_nonempty (df : DataFrame) : result DataFrame :=
  match getitem df (lit "text") with
  | Ok text => Ok (select_rows (map truthy text) df)
  | Raise e => Raise e
  end.

(** Lines 140-143 *)
Definition deduplicate (df : DataFrame) : result DataFrame :=
  if bool_decide (lit "tweet_id" ∈ columns df)
  then drop_duplicates (lit "tweet_id") df
  else drop_duplicates (lit "text") df.

Definition out_columns : list str :=
  [lit "tweet_id"; lit "text"; lit "label"; lit "year"].

(** Lines 147-148, the body of the loop: a canonical column that is missing
    is filled with the empty string. *)
Definition fill_missing (df : DataFrame) (col : str) : DataFrame :=
  if bool_decide (col ∉ columns df) then setitem_scalar df col (PyStr []) else df.

(** Lines 145-150: the loop over the canonical columns, and the frame of
    these four columns. *)
Definition finish (df : DataFrame) : result DataFrame :=
  let df := fold_left fill_missing out_columns df in
  project out_columns df.

(** The table as it stands before the duplicates are dropped. *)
Definition cleaned_rows (config : Config) (raw : DataFrame) : M DataFrame :=
  let df := reconcile config raw in
  let df := stamp config df in
  do df <- lift (clean_column df);
  do df <- filter_english df;
  lift (filter_nonempty df).

Definition load_and_clean (config : Config) : M DataFrame :=
  do raw <- lift (read_csv (path config));
  do df <- cleaned_rows config raw;
  do df <- lift (deduplicate df);
  lift (finish df).

End Pipeline.

(** [is_english] as a caller of the module gets it: the module is loaded
    first, which runs the import of line 22, and [is_english] reads the name
    [detect] that the import has bound.  [package] is the function of the
    installed package, if there is one. *)
Definition is_english_loaded {D : Type} (package : option (pyval → D → result str * D))
    (text : pyval) (d : D) : result bool * D :=
  match import_detect package with
  | Ok detect => is_english detect text d
  | Raise e => (Raise e, d)
  end.

(** The entries of [FILES], with the path from [DATA_DIR] on. *)
Definition FILES : list Config :=
  [ {| path := lit "Data/Democrat_2020.csv"; label := lit "democrat"; year := 2020;
       id_col := lit "tweet_id"; text_col := lit "tweet"; date_col := lit "created_at";
       year_prints := eq_refl |};
    {| path := lit "Data/Republican_2020.csv"; label := lit "republican"; year := 2020;
       id_col := lit "tweet_id"; text_col := lit "tweet"; date_col := lit "created_at";
       year_prints := eq_refl |};
    {| path := lit "Data/Democrat_2024.csv"; label := lit "democrat"; year := 2024;
       id_col := lit "Tweet ID"; text_col := lit "Text"; date_col := lit "Date";
       year_prints := eq_refl |};
    {| path := lit "Data/Republican_2024.csv"; label := lit "republican"; year := 2024;
       id_col := lit "Tweet ID"; text_col := lit "Text"; date_col := lit "Date";
       year_prints := eq_refl |} ].

(** ** Sample data

    A detector and two small exports on which the pipeline is run below.
    The detector stands in for [langdetect.detect]: it counts its calls,
    fails with [LangDetectException] on a text without a letter, as langdetect
    does on a text without features, and answers [en] on ASCII text. *)
Module Sample.

Definition has_letter (s : str) : bool :=
  existsb (λ c, between 65 90 c || between 97 122 c) s.

Definition detect (text : pyval) (calls : nat) : result str * nat :=
  match text with
  | PyStr s =>
      if negb (has_letter s) then (Raise LangDetectException, S calls)
      else if isascii s then (Ok (lit "en"), S calls)
      else (Ok (lit "fr"), S calls)
  | _ => (Raise (OtherError (lit "TypeError")), S calls)
  end.

Definition s (x : string) : pyval := PyStr (lit x).

(** An export of 2020 with an unnamed index column. *)
Definition democrat_2020 : DataFrame :=
  {| columns := [lit "Unnamed: 0"; lit "tweet_id"; lit "tweet"; lit "created_at"];
     rows :=
       [ [s "0"; s "11"; s "Go vote today http://x.co/a"; s "2020-10-01"];
         [s "1"; s "11"; s "A different text, same id"; s "2020-10-01"];
         [s "2"; s "12"; s "@bob http://t.co/zz"; s "2020-10-02"];
         [s "3"; s "13"; s "!!! ???"; s "2020-10-02"];
         [s "4"; PyNaN; s "Polls are open"; s "2020-10-03"];
         [s "5"; s "14"; s "les bureaux sont ouverts à midi"; PyNaN] ] |}.

(** An export that has neither the id column nor the date column. *)
Definition text_only : DataFrame :=
  {| columns := [lit "tweet"];
     rows := [ [s "Polls are OPEN"]; [s "polls   are open"]; [s "#Vote early"] ] |}.

(** An export without the configured text column. *)
Definition no_text : DataFrame :=
  {| columns := [lit "tweet_id"; lit "created_at"];
     rows := [ [s "11"; s "2020-10-01"] ] |}.

(** An export whose first row is French and has the tweet id of the second
    row. *)
Definition french_first : DataFrame :=
  {| columns := [lit "tweet_id"; lit "tweet"];
     rows :=
       [ [s "11"; s "les bureaux sont ouverts à midi"];
         [s "11"; s "Polls are open"] ] |}.

Definition read_csv (files : list (str * DataFrame)) (p : str) : result DataFrame :=
  match List.find (λ e, bool_decide (fst e = p)) files with
  | Some e => Ok (snd e)
  | None => Raise (OtherError (lit "FileNotFoundError"))
  end.

(** The first entry of [FILES]. *)
Definition democrat : Config :=
  {| path := lit "Data/Democrat_2020.csv"; label := lit "democrat"; year := 2020;
     id_col := lit "tweet_id"; text_col := lit "tweet"; date_col := lit "created_at";
       year_prints := eq_refl |}.

(** Three file systems: each holds one of the exports under the path of the
    configuration. *)
Definition full_export : str → result DataFrame :=
  read_csv [(lit "Data/Democrat_2020.csv", democrat_2020)].

Definition export_without_id : str → result DataFrame :=
  read_csv [(lit "Data/Democrat_2020.csv", text_only)].

Definition export_without_text : str → result DataFrame :=
  read_csv [(lit "Data/Democrat_2020.csv", no_text)].

Definition export_french_first : str → result DataFrame :=
  read_csv [(lit "Data/Democrat_2020.csv", french_first)].

(** What the pipeline returns on the first two. *)
Definition democrat_2020_cleaned : DataFrame :=
  {| columns := [lit "tweet_id"; lit "text"; lit "label"; lit "year"];
     rows :=
       [ [s "11"; s "go vote today"; s "democrat"; s "2020"];
         [PyNaN; s "polls are open"; s "democrat"; s "2020"] ] |}.

Definition text_only_cleaned : DataFrame :=
  {| columns := [lit "tweet_id"; lit "text"; lit "label"; lit "year"];
     rows :=
       [ [s ""; s "polls are open"; s "democrat"; s "2020"];
         [s ""; s "vote early"; s "democrat"; s "2020"] ] |}.

End Sample.


(** ** Notions used by the statements *)

(** What [MULTISPACE_RE.sub(" ", s)] computes, by one pass over the string:
    [in_run] tells that the previous character was white space. *)
Fixpoint squeeze (in_run : bool) (s : str) : str :=
  match s with
  | [] => []
  | c :: r =>
      if is_space c then (if in_run then squeeze true r else 32 :: squeeze true r)
      else c :: squeeze false r
  end.

(** Every white-space character is a single U+0020; [prev_ws] tells that the
    character before the string is white space. *)
Fixpoint single_spaced (prev_ws : bool) (s : str) : bool :=
  match s with
  | [] => true
  | c :: r =>
      if is_space c then (c =? 32) && negb prev_ws && single_spaced true r
      else single_spaced false r
  end.

Definition ends_with_space (s : str) : bool :=
  match last s with
  | Some c => is_space c
  | None => false
  end.

(** The shape of a cleaned text. *)
Definition normal (s : str) : Prop :=
  single_spaced true s = true ∧ ends_with_space s = false.

(** The number of white-space characters a string starts with. *)
Definition lead (s : str) : nat := (length s - length (lstrip s))%nat.

(** Facts of the Unicode character database about [str.lower()]: the space
    has no case; the lower-case mapping of a character that is not white
    space is not empty and holds no white space; a character of a lower-case
    mapping (of any character but the capital sigma, which [str.lower()] maps
    itself) is its own lower case and is not the capital sigma; so are the two
    small sigmas. *)
Definition lower_keeps_space `{PyLib} : Prop := tolower_full 32 = [32].

Definition lower_keeps_nonspace `{PyLib} : Prop :=
  ∀ c, is_space c = false →
    tolower_full c ≠ [] ∧ ∀ d, d ∈ tolower_full c → is_space d = false.



(** Two sets of tables agree on the characters of a set. *)
Definition agrees_on (P : Z → Prop) (L1 L2 : PyLib) : Prop :=
  ∀ c, P c →
    @isalnum L1 c = @isalnum L2 c
    ∧ @tolower_full L1 c = @tolower_full L2 c
    ∧ @is_cased L1 c = @is_cased L2 c
    ∧ @is_case_ignorable L1 c = @is_case_ignorable L2 c.

(** Two patterns of the same shape whose classes agree on the characters of
    a set. *)
Fixpoint regex_agree (P : Z → Prop) (r1 r2 : Re.regex) : Prop :=
  match r1, r2 with
  | Re.Chr p1, Re.Chr p2 => ∀ c, P c → p1 c = p2 c
  | Re.Cat a1 b1, Re.Cat a2 b2 => regex_agree P a1 a2 ∧ regex_agree P b1 b2
  | Re.Alt a1 b1, Re.Alt a2 b2 => regex_agree P a1 a2 ∧ regex_agree P b1 b2
  | Re.Opt a1, Re.Opt a2 => regex_agree P a1 a2
  | Re.Rep p1 lo1 hi1, Re.Rep p2 lo2 hi2 =>
      lo1 = lo2 ∧ hi1 = hi2 ∧ ∀ c, P c → p1 c = p2 c
  | Re.Grp a1, Re.Grp a2 => regex_agree P a1 a2
  | Re.Bol, Re.Bol => True
  | _, _ => False
  end.

(** The text of a group, if any, is made of characters of a set. *)
Definition captured (P : Z → Prop) (g : option str) : Prop :=
  ∀ t, g = Some t → Forall P t.

(** The characters of the Basic Latin block, and these with the emoji
    U+1F600. *)
Definition basic_latin (c : Z) : Prop := 0 ≤ c < 128.


(** Every row of a frame has one cell per column. *)
Definition rect (df : DataFrame) : Prop :=
  Forall (λ row, length row = length (columns df)) (rows df).

(** The raw tables the statements below are about: a table as [read_csv]
    reads it (one cell per column in every row), whose labels are still
    distinct after the renaming, and which has a row.  (On a table without
    rows [Series.apply] returns an empty series of dtype object, which
    [df[...]] does not take for a boolean mask; the frames above do not model
    dtypes.) *)
Definition well_formed (config : Config) (raw : DataFrame) : Prop :=
  NoDup (columns (reconcile config raw)) ∧ rect raw ∧ rows raw ≠ [].

(** The text that [clean_text] returns on a cell; the empty string stands
    for no result. *)
Definition cleaned `{PyLib} (v : pyval) : str :=
  match clean_text v with
  | Ok text => text
  | Raise _ => []
  end.

(** Every text of the table is one that [clean_text] returns on.  (It raises
    on a decimal character reference of more than [int_max_str_digits]
    digits only.) *)
(** The cell of a row under a label; the empty string when the frame has no
    such column, which is how [load_and_clean] fills a missing canonical
    column. *)
Definition field (df : DataFrame) (col : str) (row : list pyval) : pyval :=
  match col_index col (columns df) with
  | Some i => cell_at i row
  | None => PyStr []
  end.

(** Every text of the table is one that [clean_text] returns on.  (It raises
    on a decimal character reference of more than [int_max_str_digits]
    digits only.) *)
Definition cleanable `{PyLib} (df : DataFrame) : Prop :=
  ∀ row, row ∈ rows df → ∃ text, clean_text (field df (lit "text") row) = Ok text.

(** The canonical record of a row. *)
Definition record (df : DataFrame) (row : list pyval) : list pyval :=
  map (λ col, field df col row) out_columns.

(** The column the duplicates are judged by. *)
Definition dedup_key (df : DataFrame) : str :=
  if bool_decide (lit "tweet_id" ∈ columns df) then lit "tweet_id" else lit "text".

(** On a string the detector raises nothing but detection failures. *)
Definition only_detection_failures {D : Type}
    (detect : option (pyval → D → result str * D)) : Prop :=
  match detect with
  | Some det => ∀ s d e d', det (PyStr s) d = (Raise e, d') → e = LangDetectException
  | None => True
  end.

(** ** The batch: [main]

    What [main] does to the file system is kept as the list of its calls,
    in order: the creation of the output directory and the frames handed to
    [to_csv], each under the name it gets below [OUTPUT_DIR].  The calls
    themselves are taken to succeed. *)

Definition OUTPUT_DIR : str := lit "Data/cleaned".

Inductive event :=
| Mkdir (dir : str)
| ToCsv (name : str) (df : DataFrame).

(** [f"{config['label']}_{config['year']}_cleaned.csv"] *)
Definition out_name (config : Config) : str :=
  label config ++ lit "_" ++ str_of_int (year config) ++ lit "_cleaned.csv".

(** The labels of several frames, each once, in the order they first occur. *)
Definition union_labels (dfs : list DataFrame) : list str :=
  fold_left (λ acc c, if bool_decide (c ∈ acc) then acc else acc ++ [c])
    (List.concat (map columns dfs)) [].

(** The rows of a frame under other labels; a label the frame does not have
    gives missing values. *)
Definition reindex (cols : list str) (df : DataFrame) : list (list pyval) :=
  map (λ row,
         map (λ c, match col_index c (columns df) with
                   | Some i => cell_at i row
                   | None => PyNaN
                   end) cols)
    (rows df).

(** [pd.concat(dfs, ignore_index=True)]: the rows of the frames one after
    the other, under the union of their labels.  Nothing to concatenate is a
    [ValueError]. *)
Definition pd_concat (dfs : list DataFrame) : result DataFrame :=
  match dfs with
  | [] => Raise (OtherError (lit "ValueError"))
  | _ =>
      let cols := union_labels dfs in
      Ok {| columns := cols; rows := List.concat (map (reindex cols) dfs) |}
  end.

(** [series == value], element by element. *)
Definition eq_str (value : str) (series : list pyval) : list bool :=
  map (λ v, bool_decide (v = PyStr value)) series.

(** [combined[combined["year"] == value]] *)
Definition year_rows (value : str) (combined : DataFrame) : result DataFrame :=
  match getitem combined (lit "year") with
  | Ok years => Ok (select_rows (eq_str value years) combined)
  | Raise e => Raise e
  end.

(** The cell of a row under a label, read along the labels: the first label
    that is equal decides. *)
Fixpoint assoc_cell (col : str) (cols : list str) (row : list pyval) : pyval :=
  match cols, row with
  | c :: cols', v :: row' => if decide (c = col) then v else assoc_cell col cols' row'
  | c :: cols', [] => if decide (c = col) then PyNaN else assoc_cell col cols' []
  | [], _ => PyStr []
  end.

(** What [df[col] = value] does to one row. *)
Definition setitem_row (df : DataFrame) (col : str) (value : pyval)
    (row : list pyval) : list pyval :=
  match col_index col (columns df) with
  | Some i => <[i := value]> row
  | None => row ++ [value]
  end.

(** The labels that [load_and_clean] drops:
    [col.startswith("Unnamed") or col.strip() == ""]. *)
Definition is_unnamed (col : str) : bool :=
  startswith (lit "Unnamed") col || bool_decide (strip col = []).

(** The dict [rename_map] of [load_and_clean]; a later key replaces an equal
    earlier one. *)
Definition rename_map (config : Config) : gmap str str :=
  <[text_col config := lit "text"]>
    (<[date_col config := lit "created_at"]>
       {[id_col config := lit "tweet_id"]}).

(** What [df["label"] = ...; df["year"] = ...] does to one row. *)
Definition stamp_row (config : Config) (df : DataFrame) (row : list pyval) : list pyval :=
  setitem_row (setitem_scalar df (lit "label") (PyStr (label config))) (lit "year")
    (PyStr (str_of_int (year config)))
    (setitem_row df (lit "label") (PyStr (label config)) row).

(** The record that [load_and_clean] makes of a row of the reconciled table:
    the tweet id, the cleaned text, the label of the source and its year. *)
Definition source_record `{PyLib} (config : Config) (df : DataFrame)
    (row : list pyval) : list pyval :=
  [ field df (lit "tweet_id") row;
    PyStr (cleaned (field df (lit "text") row));
    PyStr (label config);
    PyStr (str_of_int (year config)) ].

(** The decimal number a string of digits stands for. *)
Definition int_of_digits (s : str) : Z := fold_left (λ acc c, acc * 10 + (c - 48)) s 0.

(** A frame of the four canonical columns. *)
Definition canonical_frame (records : list (list pyval)) : DataFrame :=
  {| columns := out_columns; rows := records |}.

(** The records of the sources of one year, source after source. *)
Definition rows_of_year (y : Z) (files : list Config) (outs : list DataFrame)
    : list (list pyval) :=
  List.concat (zip_with (λ c o, if bool_decide (year c = y) then rows o else []) files outs).

(** The calls of [to_csv] in the loop of [main]. *)
Definition source_writes (files : list Config) (outs : list DataFrame) : list event :=
  zip_with (λ c o, ToCsv (out_name c) o) files outs.

Section Batch.
Context `{PyLib} {D : Type}.
Variable detect : option (pyval → D → result str * D).
Variable read_csv : str → result DataFrame.

(** The loop of [main] over the sources: [cleaned] holds the frames so far
    and [log] the calls so far. *)
Fixpoint main_loop (files : list Config) (cleaned : list DataFrame)
    (log : list event) (d : D) : result (list DataFrame) * D * list event :=
  match files with
  | [] => (Ok cleaned, d, log)
  | config :: files' =>
      match load_and_clean detect read_csv config d with
      | (Ok df, d') =>
          main_loop files' (cleaned ++ [df]) (log ++ [ToCsv (out_name config) df]) d'
      | (Raise e, d') => (Raise e, d', log)
      end
  end.

(** The body of [main] over a list of sources. *)
Definition main_on (files : list Config) (d : D) : result unit * D * list event :=
  let log := [Mkdir OUTPUT_DIR] in
  match main_loop files [] log d with
  | (Ok cleaned, d', log) =>
      match pd_concat cleaned with
      | Ok combined =>
          let log := log ++ [ToCsv (lit "tweets_all_cleaned.csv") combined] in
          match year_rows (lit "2020") combined with
          | Ok combined_2020 =>
              match year_rows (lit "2024") combined with
              | Ok combined_2024 =>
                  (Ok tt, d',
                   log ++ [ToCsv (lit "tweets_2020_cleaned.csv") combined_2020;
                           ToCsv (lit "tweets_2024_cleaned.csv") combined_2024])
              | Raise e => (Raise e, d', log)
              end
          | Raise e => (Raise e, d', log)
          end
      | Raise e => (Raise e, d', log)
      end
  | (Raise e, d', log) => (Raise e, d', log)
  end.

Definition main : D → result unit * D * list event := main_on FILES.

End Batch.

(** An export whose text is under an unnamed label, the configuration that
    names it, and a detector that breaks on every text. *)
Module Sample2.

Definition unnamed_text : DataFrame :=
  {| columns := [lit "Unnamed: 0"; lit "tweet_id"];
     rows := [ [Sample.s "Polls are open"; Sample.s "11"] ] |}.

Definition unnamed_config : Config :=
  {| path := lit "Data/Democrat_2020.csv"; label := lit "democrat"; year := 2020;
     id_col := lit "tweet_id"; text_col := lit "Unnamed: 0"; date_col := lit "created_at";
       year_prints := eq_refl |}.

Definition export_unnamed : str → result DataFrame :=
  Sample.read_csv [(lit "Data/Democrat_2020.csv", unnamed_text)].

Definition broken_detect (text : pyval) (calls : nat) : result str * nat :=
  (Raise (OtherError (lit "RuntimeError")), S calls).

(** A detector that breaks on the empty text and is the sample detector on
    every other one. *)
Definition strict_detect (text : pyval) (calls : nat) : result str * nat :=
  match text with
  | PyStr [] => (Raise (OtherError (lit "ValueError")), S calls)
  | _ => Sample.detect text calls
  end.

(** A file system with the first export only: the second source has no
    file. *)
Definition republican : Config :=
  {| path := lit "Data/Republican_2020.csv"; label := lit "republican"; year := 2020;
     id_col := lit "tweet_id"; text_col := lit "tweet"; date_col := lit "created_at";
       year_prints := eq_refl |}.

Definition first_only : str → result DataFrame :=
  Sample.read_csv [(lit "Data/Democrat_2020.csv", Sample.democrat_2020)].

(** A file system with the four exports of [FILES]. *)
Definition republican_2020 : DataFrame :=
  {| columns := [lit "tweet_id"; lit "tweet"; lit "created_at"];
     rows :=
       [ [Sample.s "21"; Sample.s "RT @gop: Rally tonight"; Sample.s "2020-10-05"];
         [Sample.s "22"; Sample.s "   "; Sample.s "2020-10-06"] ] |}.

Definition democrat_2024 : DataFrame :=
  {| columns := [lit "Tweet ID"; lit "Text"; lit "Date"];
     rows :=
       [ [Sample.s "31"; Sample.s "Vote &amp; be heard"; Sample.s "2024-10-01"];
         [Sample.s "31"; Sample.s "Vote again"; Sample.s "2024-10-01"] ] |}.

Definition republican_2024 : DataFrame :=
  {| columns := [lit "Tweet ID"; lit "Text"; lit "Date"];
     rows := [ [Sample.s "41"; Sample.s "#Election day is near"; Sample.s "2024-10-02"] ] |}.

Definition all_exports : str → result DataFrame :=
  Sample.read_csv
    [ (lit "Data/Democrat_2020.csv", Sample.democrat_2020);
      (lit "Data/Republican_2020.csv", republican_2020);
      (lit "Data/Democrat_2024.csv", democrat_2024);
      (lit "Data/Republican_2024.csv", republican_2024) ].

(** What the pipeline returns on the four exports, and what [main] writes. *)
Definition cleaned : list DataFrame :=
  [ Sample.democrat_2020_cleaned;
    canonical_frame
      [ [Sample.s "21"; Sample.s ": rally tonight"; Sample.s "republican"; Sample.s "2020"] ];
    canonical_frame
      [ [Sample.s "31"; Sample.s "vote & be heard"; Sample.s "democrat"; Sample.s "2024"] ];
    canonical_frame
      [ [Sample.s "41"; Sample.s "election day is near"; Sample.s "republican";
         Sample.s "2024"] ] ].

Definition main_log : list event :=
  [ Mkdir (lit "Data/cleaned");
    ToCsv (lit "democrat_2020_cleaned.csv") Sample.democrat_2020_cleaned;
    ToCsv (lit "republican_2020_cleaned.csv")
      (canonical_frame
         [ [Sample.s "21"; Sample.s ": rally tonight"; Sample.s "republican";
            Sample.s "2020"] ]);
    ToCsv (lit "democrat_2024_cleaned.csv")
      (canonical_frame
         [ [Sample.s "31"; Sample.s "vote & be heard"; Sample.s "democrat";
            Sample.s "2024"] ]);
    ToCsv (lit "republican_2024_cleaned.csv")
      (canonical_frame
         [ [Sample.s "41"; Sample.s "election day is near"; Sample.s "republican";
            Sample.s "2024"] ]);
    ToCsv (lit "tweets_all_cleaned.csv")
      (canonical_frame
         [ [Sample.s "11"; Sample.s "go vote today"; Sample.s "democrat"; Sample.s "2020"];
           [PyNaN; Sample.s "polls are open"; Sample.s "democrat"; Sample.s "2020"];
           [Sample.s "21"; Sample.s ": rally tonight"; Sample.s "republican";
            Sample.s "2020"];
           [Sample.s "31"; Sample.s "vote & be heard"; Sample.s "democrat";
            Sample.s "2024"];
           [Sample.s "41"; Sample.s "election day is near"; Sample.s "republican";
            Sample.s "2024"] ]);
    ToCsv (lit "tweets_2020_cleaned.csv")
      (canonical_frame
         [ [Sample.s "11"; Sample.s "go vote today"; Sample.s "democrat"; Sample.s "2020"];
           [PyNaN; Sample.s "polls are open"; Sample.s "democrat"; Sample.s "2020"];
           [Sample.s "21"; Sample.s ": rally tonight"; Sample.s "republican";
            Sample.s "2020"] ]);
    ToCsv (lit "tweets_2024_cleaned.csv")
      (canonical_frame
         [ [Sample.s "31"; Sample.s "vote & be heard"; Sample.s "democrat";
            Sample.s "2024"];
           [Sample.s "41"; Sample.s "election day is near"; Sample.s "republican";
            Sample.s "2024"] ]) ].

End Sample2.

(** The statements of [clean_text] on a string, one after the other. *)
Ltac clean_text_steps :=
  unfold clean_text, strip_tokens, strip_markers, normalize_space; cbn [py_str].

Ltac step E := rewrite E; clear E.

(** Two string literals differ. *)
Ltac lit_neq := let H := fresh in intros H; vm_compute in H; discriminate H.

(** [clean_text] returns on every text of a table that is given by its
    rows. *)
Ltac rows_cleanable :=
  let row := fresh "row" in
  let Hrow := fresh "Hrow" in
  intros row Hrow; vm_compute in Hrow;
  repeat (apply elem_of_cons in Hrow as [->|Hrow]);
  first [by apply elem_of_nil in Hrow | eexists; by vm_compute].

(** * Properties *)

(** ** White space *)

Lemma lstrip_head s c r : lstrip s = c :: r → is_space c = false.
Proof.
  induction s as [|a s IH]; simpl; [done|].
  destruct (is_space a) eqn:Ha; [done|]. by intros [= <- _].
Qed.


Lemma lstrip_suffix s : lstrip s = drop (lead s) s.
Proof.
  unfold lead. induction s as [|a s IH]; simpl; [done|].
  destruct (is_space a) eqn:Ha.
  - assert (length (lstrip s) ≤ length s)%nat.
    { rewrite IH. rewrite length_drop. lia. }
    replace (S (length s) - length (lstrip s))%nat
      with (S (length s - length (lstrip s)))%nat by lia.
    done.
  - simpl. by rewrite Nat.sub_diag.
Qed.

Lemma lstrip_length s : (length (lstrip s) ≤ length s)%nat.
Proof. rewrite lstrip_suffix, length_drop. lia. Qed.

Lemma lead_cons a s :
  lead (a :: s) = if is_space a then S (lead s) else 0%nat.
Proof.
  unfold lead. simpl. pose proof (lstrip_length s).
  destruct (is_space a); simpl; lia.
Qed.

Lemma lstrip_app s c :
  lstrip (s ++ [c]) =
    match lstrip s with
    | [] => if is_space c then [] else [c]
    | r => r ++ [c]
    end.
Proof.
  induction s as [|a s IH]; simpl; [done|].
  destruct (is_space a); [done|]. done.
Qed.

Lemma rstrip_cons c s :
  rstrip (c :: s) =
    match rstrip s with
    | [] => if is_space c then [] else [c]
    | r => c :: r
    end.
Proof.
  unfold rstrip. simpl. rewrite lstrip_app.
  destruct (lstrip (rev s)) as [|a l] eqn:E; simpl.
  - by destruct (is_space c).
  - rewrite rev_app_distr. simpl.
    destruct (rev l ++ [a]) eqn:E'; [by destruct (rev l)|done].
Qed.



Lemma single_spaced_lstrip f s :
  single_spaced f s = true → single_spaced true (lstrip s) = true.
Proof.
  revert f. induction s as [|a s IH]; intros f; simpl; [done|].
  destruct (is_space a) eqn:Ha.
  - intros (_ & Hs)%andb_prop. by eapply IH.
  - intros Hs. simpl. by rewrite Ha.
Qed.

Lemma single_spaced_rstrip f s :
  single_spaced f s = true → single_spaced f (rstrip s) = true.
Proof.
  revert f. induction s as [|a s IH]; intros f; [done|].
  rewrite rstrip_cons. simpl.
  destruct (is_space a) eqn:Ha.
  - intros ((Ha32 & Hf)%andb_prop & Hs)%andb_prop.
    specialize (IH _ Hs).
    destruct (rstrip s) as [|b r]; [done|].
    cbn [single_spaced]. rewrite Ha, Ha32, Hf. done.
  - intros Hs. specialize (IH _ Hs).
    destruct (rstrip s) as [|b r]; cbn [single_spaced]; by rewrite Ha.
Qed.


Lemma rstrip_ends s : ends_with_space (rstrip s) = false.
Proof.
  unfold ends_with_space, rstrip.
  destruct (lstrip (rev s)) as [|a l] eqn:E; [done|].
  simpl. rewrite last_snoc. by eapply lstrip_head.
Qed.


Lemma strip_normal f s : single_spaced f s = true → normal (strip s).
Proof.
  intros Hs. split; [|apply rstrip_ends].
  apply single_spaced_rstrip. by eapply single_spaced_lstrip.
Qed.

Lemma normal_head s c : normal s → head s = Some c → is_space c = false.
Proof.
  intros [Hs _]. destruct s as [|a s]; [done|]. intros [= <-].
  simpl in Hs. destruct (is_space a); [|done]. by rewrite andb_false_r in Hs.
Qed.


Lemma single_spaced_space f s c :
  single_spaced f s = true → c ∈ s → is_space c = true → c = 32.
Proof.
  revert f. induction s as [|a s IH]; intros f Hs Hin Hc; [by apply elem_of_nil in Hin|].
  simpl in Hs. apply elem_of_cons in Hin as [->|Hin].
  - rewrite Hc in Hs. apply andb_prop in Hs as [[H32 _]%andb_prop _]. lia.
  - destruct (is_space a); [apply andb_prop in Hs as [_ Hs]|]; by eapply IH.
Qed.

Lemma single_spaced_adjacent f s l1 a b l2 :
  single_spaced f s = true → s = l1 ++ a :: b :: l2 →
  is_space a = true → is_space b = false.
Proof.
  intros Hs ->. revert f Hs. induction l1 as [|x l1 IH]; intros f Hs Ha.
  - simpl in Hs. rewrite Ha in Hs. apply andb_prop in Hs as [_ Hs].
    destruct (is_space b); [|done]. by rewrite andb_false_r in Hs.
  - simpl in Hs. destruct (is_space x); [apply andb_prop in Hs as [_ Hs]|]; by eapply IH.
Qed.

Lemma squeeze_single_spaced f s : single_spaced f (squeeze f s) = true.
Proof.
  revert f. induction s as [|a s IH]; intros f; simpl; [done|].
  destruct (is_space a) eqn:Ha.
  - destruct f; [apply IH|]. simpl. apply IH.
  - simpl. rewrite Ha. apply IH.
Qed.



(** ** The white-space pattern *)

Lemma rep_space_longest {A} (k : Re.cont A) b g s x :
  (∀ b', k b' g (lstrip s) = Some x) →
  Re.rep is_space 0 None b g s k = Some x.
Proof.
  revert b. induction s as [|a s IH]; intros b Hk; simpl in *; [done|].
  destruct (is_space a); simpl; [|done].
  by rewrite (IH false Hk).
Qed.

Lemma match_at_multispace `{PyLib} b s :
  Re.match_at MULTISPACE_RE b false s =
    match s with
    | c :: s' => if is_space c then Some (None, lstrip s') else None
    | [] => None
    end.
Proof.
  unfold Re.match_at, MULTISPACE_RE, Re.plus. destruct s as [|c s']; [done|].
  cbn [Re.rmatch Re.rep]. destruct (is_space c); [|done].
  cbn [andb Nat.pred fmap option_fmap option_map].
  by rewrite (rep_space_longest _ _ _ _ (None, lstrip s')).
Qed.

Lemma sub_multispace_squeeze `{PyLib} s :
  (∀ b, Re.sub_from MULTISPACE_RE (λ _, [32]) b 0 s = squeeze false s)
  ∧ Re.sub_from MULTISPACE_RE (λ _, [32]) false (lead s) s = squeeze true s.
Proof.
  induction s as [|c s [IHa IHb]].
  - split; [intros b|]; cbn [Re.sub_from lead]; by rewrite ?match_at_multispace.
  - assert (∀ b, Re.sub_from MULTISPACE_RE (λ _, [32]) b 0 (c :: s) = squeeze false (c :: s))
      as Ha.
    { intros b. cbn [Re.sub_from]. rewrite match_at_multispace.
      cbn [squeeze]. destruct (is_space c).
      - pose proof (lstrip_length s).
        replace (length (c :: s) - length (lstrip s))%nat with (S (lead s))
          by (unfold lead; simpl; lia).
        by rewrite IHb.
      - by rewrite IHa. }
    split; [done|].
    rewrite lead_cons. cbn [squeeze]. destruct (is_space c) eqn:Hc.
    + cbn [Re.sub_from]. done.
    + rewrite Ha. cbn [squeeze]. by rewrite Hc.
Qed.

Lemma sub_multispace `{PyLib} s :
  Re.sub MULTISPACE_RE (λ _, [32]) s = squeeze false s.
Proof. apply sub_multispace_squeeze. Qed.

(** ** A replacement that may raise *)

Lemma prepend_Ok a k y :
  Re.prepend a k = Ok y → ∃ t u, a = Ok t ∧ k = Ok u ∧ y = t ++ u.
Proof. destruct a as [t|], k as [u|]; try done. intros [= <-]. by exists t, u. Qed.

Lemma prepend_Raise a k e : Re.prepend a k = Raise e → a = Raise e ∨ k = Raise e.
Proof. destruct a as [t|], k as [u|]; try done; intros [= <-]; auto. Qed.

(** [re.sub] raises what its replacement function raises, and nothing else. *)
Lemma sub_from_r_Raise r repl b n s e :
  Re.sub_from_r r repl b n s = Raise e → ∃ g, repl g = Raise e.
Proof.
  revert b n. induction s as [|c s IH]; intros b n; cbn [Re.sub_from_r].
  - destruct n; [|done]. destruct (Re.match_at r b false []) as [[g rest]|]; [|done].
    intros Hg. by exists g.
  - destruct n as [|n]; [|by apply IH].
    assert (Re.prepend (Ok [c]) (Re.sub_from_r r repl false 0 s) = Raise e →
            ∃ g, repl g = Raise e) as Hstep.
    { intros [?|?]%prepend_Raise; [done|by eapply IH]. }
    destruct (Re.match_at r b false (c :: s)) as [[g rest]|]; [|done].
    intros [Hg|Hrest]%prepend_Raise; [by exists g|]. revert Hrest.
    destruct (length (c :: s) - length rest)%nat; [|by apply IH].
    destruct (Re.match_at r b true (c :: s)) as [[g' rest']|]; [|done].
    intros [Hg|Hrest]%prepend_Raise; [by exists g'|by eapply IH].
Qed.

(** ** Lower case *)
Section LowerCase.
Context `{PyLib}.

Lemma sigma_not_space before after : is_space (handle_capital_sigma before after) = false.
Proof. unfold handle_capital_sigma. by destruct (_ && _). Qed.

Lemma single_spaced_nonspace_app f l r :
  l ≠ [] → (∀ d, d ∈ l → is_space d = false) →
  single_spaced f (l ++ r) = single_spaced false r.
Proof.
  revert f. induction l as [|a l IH]; intros f Hne Hl; [done|].
  simpl. rewrite (Hl a) by apply list_elem_of_here.
  destruct l as [|b l]; [done|].
  apply IH; [done|]. intros d Hd. apply Hl. by apply list_elem_of_further.
Qed.

(** The image of one character is never empty and holds no white space,
    unless the character is the space itself. *)
Lemma lowered_nonspace before c after :
  lower_keeps_nonspace → is_space c = false →
  let l := if c =? 0x3A3 then [handle_capital_sigma before after] else tolower_full c in
  l ≠ [] ∧ ∀ d, d ∈ l → is_space d = false.
Proof.
  intros Hns Hc. simpl. destruct (c =? 0x3A3).
  - split; [done|]. intros d ->%list_elem_of_singleton. apply sigma_not_space.
  - by apply Hns.
Qed.

Lemma do_lower_single_spaced before f s :
  lower_keeps_space → lower_keeps_nonspace →
  single_spaced f s = true → single_spaced f (do_lower before s) = true.
Proof.
  intros Hsp Hns. revert before f.
  induction s as [|c r IH]; intros before f Hs; [done|].
  cbn [do_lower]. simpl in Hs. destruct (is_space c) eqn:Hc.
  - apply andb_prop in Hs as [[H32%Z.eqb_eq Hf]%andb_prop Hs]. subst c.
    change (32 =? 0x3A3) with false. cbv iota. rewrite Hsp.
    simpl. rewrite Hf. by apply IH.
  - destruct (lowered_nonspace before c r Hns Hc) as [Hne Hl].
    rewrite single_spaced_nonspace_app by done. by apply IH.
Qed.

Lemma do_lower_nonempty before f c r :
  lower_keeps_space → lower_keeps_nonspace →
  single_spaced f (c :: r) = true → do_lower before (c :: r) ≠ [].
Proof.
  intros Hsp Hns Hs. cbn [do_lower]. simpl in Hs.
  destruct (is_space c) eqn:Hc.
  - apply andb_prop in Hs as [[H32%Z.eqb_eq _]%andb_prop _]. subst c.
    change (32 =? 0x3A3) with false. cbv iota. by rewrite Hsp.
  - destruct (lowered_nonspace before c r Hns Hc) as [Hne _]. simpl in Hne.
    intros [? _]%app_eq_nil. done.
Qed.

Lemma do_lower_ends before f s :
  lower_keeps_space → lower_keeps_nonspace →
  single_spaced f s = true →
  ends_with_space s = false → ends_with_space (do_lower before s) = false.
Proof.
  intros Hsp Hns. unfold ends_with_space. revert before f.
  induction s as [|c r IH]; intros before f Hs He; [done|].
  destruct r as [|d r].
  - simpl in He. destruct (lowered_nonspace before c [] Hns He) as [Hne Hl].
    cbn [do_lower]. rewrite app_nil_r. simpl in Hne, Hl.
    clear IH. destruct (last _) as [x|] eqn:Hx; [|done].
    apply Hl. apply last_Some in Hx as [l' ->]. apply elem_of_app. right.
    apply list_elem_of_here.
  - assert (∃ f', single_spaced f' (d :: r) = true) as [f' Hs'].
    { simpl in Hs. destruct (is_space c).
      - apply andb_prop in Hs as [_ Hs]. by exists true.
      - by exists false. }
    change (last (c :: d :: r)) with (last (d :: r)) in He.
    specialize (IH (c :: before) f' Hs' He).
    pose proof (do_lower_nonempty (c :: before) f' d r Hsp Hns Hs') as Hne.
    change (do_lower before (c :: d :: r))
      with ((if c =? 0x3A3 then [handle_capital_sigma before (d :: r)] else tolower_full c)
            ++ do_lower (c :: before) (d :: r)).
    rewrite last_app.
    destruct (last (do_lower (c :: before) (d :: r))) as [y|] eqn:Hy; [done|].
    by apply last_None in Hy.
Qed.

Lemma lower_normal s :
  lower_keeps_space → lower_keeps_nonspace → normal s → normal (lower s).
Proof.
  intros Hsp Hns [Hs He]. split.
  - by apply do_lower_single_spaced.
  - by eapply do_lower_ends.
Qed.



Lemma normalize_space_normal t :
  lower_keeps_space → lower_keeps_nonspace → normal (normalize_space t).
Proof.
  intros Hsp Hns. unfold normalize_space. apply lower_normal; [done..|].
  rewrite sub_multispace. eapply strip_normal, squeeze_single_spaced.
Qed.


End LowerCase.

(** ** Tables that agree on the characters of a text

    The matcher, [re.sub] and [str.lower()] consult the tables at the
    characters of their subject only. *)
Section Agreement.
Context (P : Z → Prop).

Lemma rep_agree {A} p1 p2 lo hi b g s (k1 k2 : Re.cont A) :
  (∀ c, P c → p1 c = p2 c) → Forall P s →
  (∀ b g s', Forall P s' → k1 b g s' = k2 b g s') →
  Re.rep p1 lo hi b g s k1 = Re.rep p2 lo hi b g s k2.
Proof.
  intros Hp Hs Hk. revert lo hi b.
  induction Hs as [|c s Hc Hs IH]; intros lo hi b; simpl.
  - destruct lo; [by apply Hk|done].
  - rewrite (Hp c Hc), (IH (Nat.pred lo) (Nat.pred <$> hi) false).
    by rewrite (Hk b g (c :: s)) by (by constructor).
Qed.

Lemma rmatch_agree {A} r1 r2 b g s (k1 k2 : Re.cont A) :
  regex_agree P r1 r2 → Forall P s →
  (∀ b g s', Forall P s' → k1 b g s' = k2 b g s') →
  Re.rmatch r1 b g s k1 = Re.rmatch r2 b g s k2.
Proof.
  revert r2 b g s k1 k2.
  induction r1 as [p1|a1 IHa b1 IHb|a1 IHa b1 IHb|a1 IHa|p1 lo1 hi1|a1 IHa|];
    intros [p2|a2 b2|a2 b2|a2|p2 lo2 hi2|a2|] b g s k1 k2 Hr Hs Hk;
    simpl in Hr; try done; cbn [Re.rmatch].
  - destruct Hs as [|c s Hc Hs]; [done|]. rewrite (Hr c Hc).
    destruct (p2 c); [by apply Hk|done].
  - destruct Hr as [Ha Hb]. apply IHa; [done..|].
    intros b' g' s' Hs'. by apply IHb.
  - destruct Hr as [Ha Hb].
    by rewrite (IHa a2 b g s k1 k2), (IHb b2 b g s k1 k2).
  - by rewrite (IHa a2 b g s k1 k2), (Hk b g s).
  - destruct Hr as (-> & -> & Hp). by apply rep_agree.
  - apply IHa; [done..|]. intros b' g' s' Hs'. by apply Hk.
  - by rewrite (Hk b g s).
Qed.

Lemma match_at_agree r1 r2 b m s :
  regex_agree P r1 r2 → Forall P s → Re.match_at r1 b m s = Re.match_at r2 b m s.
Proof. intros Hr Hs. unfold Re.match_at. by apply rmatch_agree. Qed.

Lemma sub_from_agree r1 r2 repl b n s :
  regex_agree P r1 r2 → Forall P s →
  Re.sub_from r1 repl b n s = Re.sub_from r2 repl b n s.
Proof.
  intros Hr Hs. revert b n.
  induction Hs as [|c s Hc Hs IH]; intros b n; cbn [Re.sub_from].
  - destruct n; [|done]. by rewrite (match_at_agree r1 r2) by (done || constructor).
  - destruct n as [|n]; [|apply IH].
    assert (Forall P (c :: s)) as Hcs by (by constructor).
    rewrite !(match_at_agree r1 r2) by done.
    destruct (Re.match_at r2 b false (c :: s)) as [[g rest]|]; [|by rewrite IH].
    destruct (length (c :: s) - length rest)%nat; [|by rewrite IH].
    destruct (Re.match_at r2 b true (c :: s)) as [[g' rest']|]; by rewrite IH.
Qed.

(** What a match captures and what it leaves are made of characters of the
    subject. *)
Lemma rep_within {A} p lo hi b g s (k : Re.cont A) x :
  Re.rep p lo hi b g s k = Some x → Forall P s →
  ∃ b' s', k b' g s' = Some x ∧ Forall P s'.
Proof.
  intros Hx Hs. revert lo hi b Hx.
  induction Hs as [|c s Hc Hs IH]; intros lo hi b; simpl.
  - destruct lo; [|done]. intros Hx. by exists b, [].
  - assert (match lo with O => k b g (c :: s) | S _ => None end = Some x →
            ∃ b' s', k b' g s' = Some x ∧ Forall P s') as Hstop.
    { destruct lo; [|done]. intros Hx. exists b, (c :: s). split; [done|by constructor]. }
    destruct (p c && _); [|done].
    destruct (Re.rep p (Nat.pred lo) (Nat.pred <$> hi) false g s k) eqn:E; [|done].
    intros [= <-]. by eapply IH.
Qed.

Lemma rmatch_within {A} r b g s (k : Re.cont A) x :
  Re.rmatch r b g s k = Some x → captured P g → Forall P s →
  ∃ b' g' s', k b' g' s' = Some x ∧ captured P g' ∧ Forall P s'.
Proof.
  revert b g s k.
  induction r as [p|r1 IH1 r2 IH2|r1 IH1 r2 IH2|r1 IH1|p lo hi|r1 IH1|];
    intros b g s k; cbn [Re.rmatch]; intros Hx Hg Hs.
  - destruct Hs as [|c s Hc Hs]; [done|]. destruct (p c); [|done].
    by exists false, g, s.
  - apply IH1 in Hx as (b1 & g1 & s1 & Hx & Hg1 & Hs1); [|done..].
    by apply IH2 in Hx.
  - destruct (Re.rmatch r1 b g s k) eqn:E.
    + injection Hx as ->. by apply IH1 in E.
    + by apply IH2 in Hx.
  - destruct (Re.rmatch r1 b g s k) eqn:E.
    + injection Hx as ->. by apply IH1 in E.
    + by exists b, g, s.
  - apply rep_within in Hx as (b' & s' & Hx & Hs'); [|done]. by exists b', g, s'.
  - apply IH1 in Hx as (b1 & g1 & s1 & Hx & _ & Hs1); [|done..].
    eexists _, _, _. split; [exact Hx|]. split; [|done].
    intros t [= <-]. by apply Forall_take.
  - destruct b; [|done]. by exists true, g, s.
Qed.

Lemma match_at_within r b m s g rest :
  Re.match_at r b m s = Some (g, rest) → Forall P s → captured P g ∧ Forall P rest.
Proof.
  unfold Re.match_at. intros Hm Hs.
  apply rmatch_within in Hm as (b' & g' & s' & Hk & Hg & Hs'); [|done..].
  destruct (_ && _); [done|]. by injection Hk as <- <-.
Qed.

Lemma sub_from_within r repl b n s :
  (∀ g, captured P g → Forall P (repl g)) → Forall P s →
  Forall P (Re.sub_from r repl b n s).
Proof.
  intros Hrepl Hs. revert b n.
  induction Hs as [|c s Hc Hs IH]; intros b n; cbn [Re.sub_from].
  - destruct n; [|constructor].
    destruct (Re.match_at r b false []) as [[g rest]|] eqn:E; [|constructor].
    apply Hrepl. by eapply match_at_within.
  - destruct n as [|n]; [|apply IH].
    assert (Forall P (c :: s)) as Hcs by (by constructor).
    destruct (Re.match_at r b false (c :: s)) as [[g rest]|] eqn:E; [|by constructor].
    apply Forall_app. split; [apply Hrepl; by eapply match_at_within|].
    destruct (length (c :: s) - length rest)%nat; [|apply IH].
    destruct (Re.match_at r b true (c :: s)) as [[g' rest']|] eqn:E'; [|by constructor].
    apply Forall_app. split; [apply Hrepl; by eapply match_at_within|apply IH].
Qed.

Lemma lstrip_within s : Forall P s → Forall P (lstrip s).
Proof.
  induction 1 as [|c s Hc Hs IH]; simpl; [constructor|].
  destruct (is_space c); [done|by constructor].
Qed.

Lemma strip_within s : Forall P s → Forall P (strip s).
Proof.
  intros Hs. unfold strip, rstrip.
  apply Forall_rev, lstrip_within, Forall_rev. by apply lstrip_within.
Qed.

Lemma replace_char_within old new s : P new → Forall P s → Forall P (replace_char old new s).
Proof.
  intros Hn Hs. unfold replace_char.
  induction Hs as [|c s Hc Hs IH]; simpl; [constructor|].
  constructor; [by destruct (c =? old)|done].
Qed.

Context (L1 L2 : PyLib) (Hagree : agrees_on P L1 L2).

Lemma skip_ignorable_agree s :
  Forall P s → @skip_ignorable L1 s = @skip_ignorable L2 s.
Proof.
  induction 1 as [|c s Hc Hs IH]; simpl; [done|].
  destruct (Hagree c Hc) as (_ & _ & _ & ->). by rewrite IH.
Qed.

Lemma skip_ignorable_within (L : PyLib) s c :
  @skip_ignorable L s = Some c → Forall P s → P c.
Proof.
  induction s as [|a s IH]; simpl; [done|]. intros Hc Hs.
  apply Forall_cons in Hs as [Ha Hs].
  destruct (is_case_ignorable a); [by apply IH|]. by injection Hc as <-.
Qed.

Lemma handle_capital_sigma_agree before after :
  Forall P before → Forall P after →
  @handle_capital_sigma L1 before after = @handle_capital_sigma L2 before after.
Proof.
  intros Hb Ha. unfold handle_capital_sigma.
  rewrite !(skip_ignorable_agree _) by done.
  destruct (@skip_ignorable L2 before) as [c|] eqn:Ec;
    destruct (@skip_ignorable L2 after) as [c'|] eqn:Ec'; try done.
  - destruct (Hagree c (skip_ignorable_within _ _ _ Ec Hb)) as (_ & _ & -> & _).
    by destruct (Hagree c' (skip_ignorable_within _ _ _ Ec' Ha)) as (_ & _ & -> & _).
  - by destruct (Hagree c (skip_ignorable_within _ _ _ Ec Hb)) as (_ & _ & -> & _).
Qed.

Lemma do_lower_agree before s :
  Forall P before → Forall P s → @do_lower L1 before s = @do_lower L2 before s.
Proof.
  intros Hb Hs. revert before Hb.
  induction Hs as [|c s Hc Hs IH]; intros before Hb; cbn [do_lower]; [done|].
  rewrite IH by (by constructor).
  rewrite handle_capital_sigma_agree by done.
  by destruct (Hagree c Hc) as (_ & -> & _).
Qed.

Lemma is_word_agree c : P c → @is_word L1 c = @is_word L2 c.
Proof. intros Hc. unfold is_word. by destruct (Hagree c Hc) as (-> & _). Qed.

(** The statements of [clean_text] after the unescaping. *)
Lemma clean_text_agree x t0 :
  P 32 → @Html.unescape L1 x = Ok t0 → @Html.unescape L2 x = Ok t0 → Forall P t0 →
  @clean_text L1 (PyStr x) = @clean_text L2 (PyStr x).
Proof.
  intros Hsp Hun1 Hun2 Hx. unfold clean_text, strip_tokens. cbn [py_str].
  rewrite Hun1, Hun2. f_equal. unfold strip_markers, normalize_space.
  set (t1 := Re.sub RT_RE (λ _, []) t0).
  assert (Forall P t1) as H1 by (apply sub_from_within; [constructor|done]).
  set (t2 := Re.sub URL_RE (λ _, []) t1).
  assert (Forall P t2) as H2 by (apply sub_from_within; [constructor|done]).
  assert (Re.sub (@MENTION_RE L1) (λ _, []) t2 = Re.sub (@MENTION_RE L2) (λ _, []) t2) as ->.
  { apply sub_from_agree; [|done]. split; [done|]. split; [done|]. split; [done|].
    apply is_word_agree. }
  set (t3 := Re.sub (@MENTION_RE L2) (λ _, []) t2).
  assert (Forall P t3) as H3 by (apply sub_from_within; [constructor|done]).
  assert (Re.sub (@HASHTAG_RE L1) Re.backref1 t3 = Re.sub (@HASHTAG_RE L2) Re.backref1 t3) as ->.
  { apply sub_from_agree; [|done]. split; [done|]. split; [done|]. split; [done|].
    apply is_word_agree. }
  set (t4 := Re.sub (@HASHTAG_RE L2) Re.backref1 t3).
  assert (Forall P t4) as H4.
  { apply sub_from_within; [|done]. intros [t|] Hg; [by apply Hg|constructor]. }
  unfold lower. apply do_lower_agree; [constructor|].
  apply strip_within, sub_from_within; [by repeat constructor|].
  apply replace_char_within; [done|]. by apply replace_char_within.
Qed.

End Agreement.

(** ** The Basic Latin tables satisfy the facts about [str.lower()] *)

Lemma between_false lo hi c : c < lo ∨ hi < c → between lo hi c = false.
Proof. unfold between. intros [?|?]; apply andb_false_iff; [left|right]; lia. Qed.

Lemma between_true lo hi c : between lo hi c = true ↔ lo ≤ c ≤ hi.
Proof. unfold between. rewrite andb_true_iff. lia. Qed.

Lemma letter_not_space c : 33 ≤ c ≤ 126 → is_space c = false.
Proof.
  intros Hc. unfold is_space.
  repeat (apply orb_false_intro);
    first [apply between_false; lia | apply Z.eqb_neq; lia].
Qed.

Lemma latin_keeps_space : lower_keeps_space (H := Latin.lib).
Proof. reflexivity. Qed.

Lemma latin_keeps_nonspace : lower_keeps_nonspace (H := Latin.lib).
Proof.
  intros c Hc. cbn [tolower_full Latin.lib]. unfold Latin.tolower_full.
  destruct (between 65 90 c) eqn:Hb; (split; [done|]);
    intros d ->%list_elem_of_singleton; [|done].
  apply between_true in Hb. apply letter_not_space. lia.
Qed.


Lemma agrees_on_refl P (L : PyLib) : agrees_on P L L.
Proof. by intros c _. Qed.

Lemma Forall_basic_latin s :
  forallb (λ c, (0 <=? c) && (c <? 128)) s = true → Forall basic_latin s.
Proof.
  rewrite forallb_forall, Forall_forall. intros Hs c Hc%list_elem_of_In.
  apply Hs in Hc. unfold basic_latin. lia.
Qed.


(** ** The text normalizer *)

(** C9: [clean_text(None)] is the empty string, not an error. *)
Theorem clean_text_none `{PyLib} : clean_text PyNone = Ok [].
Proof. reflexivity. Qed.

(** What [clean_text] returns on a string is the white-space and case
    normal form of what the token rules return. *)
Lemma clean_text_Ok `{PyLib} x y :
  clean_text (PyStr x) = Ok y →
  ∃ t, strip_tokens x = Ok t ∧ y = normalize_space t.
Proof.
  cbn [clean_text py_str]. destruct (strip_tokens x) as [t|e]; [|done].
  intros [= <-]. by exists t.
Qed.

(** ** What [re.sub] keeps of its subject *)

Lemma sub_from_skip r repl n s :
  (n ≤ length s)%nat →
  Re.sub_from r repl false n s = Re.sub_from r repl false 0 (drop n s).
Proof.
  revert n. induction s as [|c s IH]; intros n Hn.
  - by replace n with 0%nat by (simpl in Hn; lia).
  - destruct n as [|n]; [done|]. cbn [Re.sub_from drop]. apply IH. simpl in Hn. lia.
Qed.

Lemma suffix_drop_length {A} (s' s : list A) :
  s' `suffix_of` s → drop (length s - length s') s = s'.
Proof.
  intros [k ->]. rewrite length_app.
  replace (length k + length s' - length s')%nat with (length k) by lia.
  by rewrite drop_app_length.
Qed.

Lemma suffix_take_length {A} (s' s : list A) :
  s' `suffix_of` s → take (length s - length s') s ++ s' = s.
Proof.
  intros Hs. rewrite <- (suffix_drop_length s' s Hs) at 2. apply take_drop.
Qed.

Lemma suffix_is_sublist {A} (s' s : list A) : s' `suffix_of` s → s' `sublist_of` s.
Proof. intros [k ->]. by apply sublist_inserts_l. Qed.

(** The matcher hands to its continuation a suffix of its subject, and the
    text of the group followed by that suffix is a sublist of the subject. *)
Lemma rep_sublist {A} (S : str) p lo hi b g s (k : Re.cont A) x :
  Re.rep p lo hi b g s k = Some x →
  default [] g ++ s `sublist_of` S →
  ∃ b' s', k b' g s' = Some x ∧ s' `suffix_of` s ∧ default [] g ++ s' `sublist_of` S.
Proof.
  revert lo hi b. induction s as [|c s IH]; intros lo hi b; simpl.
  - destruct lo; [|done]. intros Hx HS. by exists b, [].
  - intros Hx HS.
    assert (match lo with O => k b g (c :: s) | S _ => None end = Some x →
            ∃ b' s', k b' g s' = Some x ∧ s' `suffix_of` c :: s
                     ∧ default [] g ++ s' `sublist_of` S) as Hstop.
    { destruct lo; [|done]. intros Hk. by exists b, (c :: s). }
    destruct (p c && _); [|by apply Hstop].
    destruct (Re.rep p (Nat.pred lo) (Nat.pred <$> hi) false g s k) eqn:E;
      [|by apply Hstop].
    injection Hx as ->. apply IH in E as (b' & s' & Hk & Hs' & HS').
    + exists b', s'. split; [done|]. split; [by apply suffix_cons_r|done].
    + etrans; [|exact HS]. apply sublist_app; [done|]. by apply sublist_cons.
Qed.

Lemma rmatch_sublist {A} (S : str) r b g s (k : Re.cont A) x :
  Re.rmatch r b g s k = Some x →
  s `suffix_of` S → default [] g ++ s `sublist_of` S →
  ∃ b' g' s', k b' g' s' = Some x ∧ s' `suffix_of` s
              ∧ default [] g' ++ s' `sublist_of` S.
Proof.
  revert b g s k.
  induction r as [p|r1 IH1 r2 IH2|r1 IH1 r2 IH2|r1 IH1|p lo hi|r1 IH1|];
    intros b g s k; cbn [Re.rmatch]; intros Hx Hsuf HS.
  - destruct s as [|c s]; [done|]. destruct (p c); [|done].
    exists false, g, s. split; [done|]. split; [by apply suffix_cons_r|].
    etrans; [|exact HS]. apply sublist_app; [done|]. by apply sublist_cons.
  - apply IH1 in Hx as (b1 & g1 & s1 & Hx & Hs1 & HS1); [|done..].
    apply IH2 in Hx as (b2 & g2 & s2 & Hx & Hs2 & HS2); [|by etrans|done].
    exists b2, g2, s2. split; [done|]. split; [by etrans|done].
  - destruct (Re.rmatch r1 b g s k) eqn:E.
    + injection Hx as ->. by apply IH1 in E.
    + by apply IH2 in Hx.
  - destruct (Re.rmatch r1 b g s k) eqn:E.
    + injection Hx as ->. by apply IH1 in E.
    + by exists b, g, s.
  - apply rep_sublist with (S := S) in Hx as (b' & s' & Hx & Hs' & HS'); [|done].
    by exists b', g, s'.
  - apply IH1 in Hx as (b1 & g1 & s1 & Hx & Hs1 & _); [|done..].
    exists b1, (Some (take (length s - length s1) s)), s1.
    split; [exact Hx|]. split; [done|].
    change (take (length s - length s1) s ++ s1 `sublist_of` S).
    rewrite suffix_take_length by done. by apply suffix_is_sublist.
  - destruct b; [|done]. by exists true, g, s.
Qed.

Lemma match_at_sublist r b m s g rest :
  Re.match_at r b m s = Some (g, rest) →
  rest `suffix_of` s ∧ default [] g ++ rest `sublist_of` s.
Proof.
  unfold Re.match_at. intros Hm.
  apply rmatch_sublist with (S := s) in Hm as (b' & g' & s' & Hk & Hs' & HS'); [|done..].
  destruct (_ && _); [done|]. by injection Hk as <- <-.
Qed.

(** ** Texts on which [clean_text] returns *)

(** A replacement function that returns on every group of at most [n]
    characters returns on every match in a subject of at most [n]
    characters. *)
Lemma sub_from_r_short r repl (n : nat) b skip s :
  (∀ g, (length (default [] g) ≤ n)%nat → ∃ t, repl g = Ok t) →
  (length s ≤ n)%nat → ∃ y, Re.sub_from_r r repl b skip s = Ok y.
Proof.
  intros Hrepl. revert b skip. induction s as [|c s IH]; intros b skip Hlen;
    cbn [Re.sub_from_r].
  - destruct skip; [|by eexists].
    destruct (Re.match_at r b false []) as [[g rest]|] eqn:E; [|by eexists].
    apply Hrepl. apply match_at_sublist in E as [_ Hsub%sublist_length].
    rewrite length_app in Hsub. simpl in *. lia.
  - assert (length s ≤ n)%nat as Hlen' by (simpl in Hlen; lia).
    destruct skip as [|k]; [|by apply IH].
    assert (∀ m g rest, Re.match_at r b m (c :: s) = Some (g, rest) → ∃ t, repl g = Ok t)
      as Hg.
    { intros m g rest [_ Hsub%sublist_length]%match_at_sublist. apply Hrepl.
      rewrite length_app in Hsub. lia. }
    assert (∀ k, ∃ y, Re.prepend (Ok [c]) (Re.sub_from_r r repl false k s) = Ok y) as Hstep.
    { intros k. destruct (IH false k Hlen') as [y ->]. by eexists. }
    destruct (Re.match_at r b false (c :: s)) as [[g rest]|] eqn:E; [|by apply Hstep].
    destruct (Hg _ _ _ E) as [t ->].
    destruct (length (c :: s) - length rest)%nat as [|k].
    + destruct (Re.match_at r b true (c :: s)) as [[g' rest']|] eqn:E'.
      * destruct (Hg _ _ _ E') as [t' ->].
        destruct (IH false (Nat.pred (length (c :: s) - length rest')) Hlen') as [y ->].
        by eexists.
      * destruct (Hstep 0%nat) as [y ->]. by eexists.
    + destruct (IH false k Hlen') as [y ->]. by eexists.
Qed.

Lemma replace_charref_short `{PyLib} g :
  (length (default [] g) ≤ int_max_str_digits)%nat → ∃ t, Html._replace_charref g = Ok t.
Proof.
  intros Hlen. destruct (Html._replace_charref g) as [t|e] eqn:E; [by eexists|exfalso].
  revert E. unfold Html._replace_charref. destruct (default [] g) as [|c s1]; [done|].
  assert (∀ s2, (length s2 ≤ length s1)%nat → ∀ base e', Html.int_of base (Html.rstrip_semi s2) ≠ Raise e')
    as Hint.
  { intros s2 Hs2 base e'. unfold Html.int_of.
    assert (length (Html.rstrip_semi s2) ≤ length s2)%nat as Hr.
    { unfold Html.rstrip_semi. rewrite length_rev.
      assert (∀ l, length (Html.lstrip_semi l) ≤ length l)%nat as Hl.
      { induction l as [|a l IHl]; simpl; [done|]. destruct (a =? 59); simpl; lia. }
      etrans; [apply Hl|]. by rewrite length_rev. }
    simpl in Hlen.
    replace (int_max_str_digits <? length (Html.rstrip_semi s2))%nat with false
      by (symmetry; apply Nat.ltb_ge; lia).
    by rewrite andb_false_r. }
  destruct (decide (c = 35)) as [->|Hc].
  - destruct s1 as [|c1 s2].
    { destruct (Html.int_of 10 (Html.rstrip_semi [])) eqn:E; [done|]. by apply Hint in E. }
    destruct (match c1 :: s2 with
              | 120 :: s3 | 88 :: s3 => Html.int_of 16 (Html.rstrip_semi s3)
              | _ => Html.int_of 10 (Html.rstrip_semi (c1 :: s2))
              end) as [num|e'] eqn:E; [done|exfalso].
    destruct (decide (c1 = 120)) as [->|H120]; [apply Hint in E; [done|simpl; lia]|].
    destruct (decide (c1 = 88)) as [->|H88]; [apply Hint in E; [done|simpl; lia]|].
    assert (Html.int_of 10 (Html.rstrip_semi (c1 :: s2)) = Raise e') as E'.
    { rewrite <- E. destruct c1 as [|p|p]; try done.
      repeat (destruct p as [p|p|]; try done). }
    by apply Hint in E'.
  - destruct c as [|p|p]; try done.
    repeat (destruct p as [p|p|]; try done).
Qed.

(** [clean_text] returns on every text of at most 4300 characters. *)
Lemma clean_text_short `{PyLib} v :
  (length (py_str v) ≤ int_max_str_digits)%nat → ∃ y, clean_text v = Ok y.
Proof.
  intros Hlen.
  assert (∃ t, Html.unescape (py_str v) = Ok t) as [t Ht].
  { unfold Html.unescape. destruct (negb _); [by eexists|].
    apply (sub_from_r_short _ _ int_max_str_digits); [apply replace_charref_short|done]. }
  unfold clean_text, strip_tokens. rewrite Ht. destruct v; by eexists.
Qed.

(** ** What [clean_text] raises *)

Lemma int_of_Raise base s e : Html.int_of base s = Raise e → e = OtherError (lit "ValueError").
Proof. unfold Html.int_of. destruct (_ && _); [by intros [= <-]|done]. Qed.

Lemma replace_charref_Raise `{PyLib} g e :
  Html._replace_charref g = Raise e → e = OtherError (lit "ValueError").
Proof.
  unfold Html._replace_charref. destruct (default [] g) as [|c s1]; [done|].
  destruct (decide (c = 35)) as [->|Hc].
  - destruct s1 as [|c1 s2]; [by destruct (Html.int_of _ _) eqn:E; [|apply int_of_Raise in E; intros [= <-]]|].
    destruct (decide (c1 = 120)) as [->|H120];
      [by destruct (Html.int_of _ _) eqn:E; [|apply int_of_Raise in E; intros [= <-]]|].
    destruct (decide (c1 = 88)) as [->|H88];
      [by destruct (Html.int_of _ _) eqn:E; [|apply int_of_Raise in E; intros [= <-]]|].
    assert (match c1 :: s2 with
            | 120 :: s3 | 88 :: s3 => Html.int_of 16 (Html.rstrip_semi s3)
            | _ => Html.int_of 10 (Html.rstrip_semi (c1 :: s2))
            end = Html.int_of 10 (Html.rstrip_semi (c1 :: s2))) as ->.
    { destruct c1 as [|p|p]; try done.
      repeat (destruct p as [p|p|]; try done). }
    by destruct (Html.int_of _ _) eqn:E; [|apply int_of_Raise in E; intros [= <-]].
  - destruct c as [|p|p]; try done.
    repeat (destruct p as [p|p|]; try done).
Qed.

Lemma clean_text_Raise `{PyLib} v e :
  clean_text v = Raise e → e = OtherError (lit "ValueError").
Proof.
  unfold clean_text, strip_tokens, Html.unescape.
  destruct v; [done|..];
    (destruct (negb _); [done|]);
    (destruct (Re.sub_r _ _ _) as [t|e'] eqn:E; [done|]);
    intros [= <-]; apply sub_from_r_Raise in E as [g Hg];
    by apply replace_charref_Raise in Hg.
Qed.

(** C10: whatever the input string, the cleaned text neither starts nor ends
    with white space, holds no line feed and no carriage return, and no white
    space follows a white space in it; and there is a cleaned text for every
    string of at most 4300 characters.  The proof uses two facts of the
    character database: the space is its own lower case, and lowering a
    character that is not white space yields at least one character and no
    white space. *)
Theorem clean_text_whitespace `{PyLib} (x : str) :
  lower_keeps_space → lower_keeps_nonspace →
  ((length x ≤ int_max_str_digits)%nat → ∃ y, clean_text (PyStr x) = Ok y)
  ∧ ∀ y, clean_text (PyStr x) = Ok y →
      (∀ c, head y = Some c → is_space c = false)
      ∧ (∀ c, last y = Some c → is_space c = false)
      ∧ (10 ∉ y) ∧ (13 ∉ y)
      ∧ (∀ l1 a b l2, y = l1 ++ a :: b :: l2 → is_space a = true → is_space b = false).
Proof.
  intros Hsp Hns. split; [apply (clean_text_short (PyStr x))|].
  intros ? (t & _ & ->)%clean_text_Ok. set (y := normalize_space t).
  assert (normal y) as Hn by (by apply normalize_space_normal).
  assert (∀ c, c ∈ y → is_space c = true → c = 32) as Hy.
  { intros c. by eapply single_spaced_space, Hn. }
  repeat split.
  - intros c. by apply normal_head.
  - intros c Hc. destruct Hn as [_ He]. unfold ends_with_space in He.
    by rewrite Hc in He.
  - intros Hin. by specialize (Hy _ Hin eq_refl).
  - intros Hin. by specialize (Hy _ Hin eq_refl).
  - intros l1 a b l2. by eapply single_spaced_adjacent, Hn.
Qed.

Lemma clean_text_whitespace_run :
  clean_text (H := Latin.lib)
    (PyStr (lit "  RT  Polls" ++ [9] ++ lit "are" ++ [13; 10] ++ lit " OPEN  "))
  = Ok (lit "polls are open").
Proof. by vm_compute. Qed.

Lemma clean_text_whitespace_witness :
  let y := lit "polls are open" in
  clean_text (H := Latin.lib)
    (PyStr (lit "  RT  Polls" ++ [9] ++ lit "are" ++ [13; 10] ++ lit " OPEN  "))
  = Ok y
  ∧ (∀ c, head y = Some c → is_space c = false)
  ∧ (∀ c, last y = Some c → is_space c = false)
  ∧ (10 ∉ y) ∧ (13 ∉ y)
  ∧ (∀ l1 a b l2, y = l1 ++ a :: b :: l2 → is_space a = true → is_space b = false).
Proof.
  split; [exact clean_text_whitespace_run|].
  exact (proj2 (clean_text_whitespace (H := Latin.lib) _ latin_keeps_space
                  latin_keeps_nonspace) _ clean_text_whitespace_run).
Defined.





(** C2, as amended: on the retweet of the example the mention goes, but the
    colon that followed it stays, so the cleaned text is [": check govote!!"].
    This holds for all tables that agree with the Basic Latin ones on the
    Basic Latin block. *)
Theorem clean_text_retweet_example `{L : PyLib} :
  agrees_on basic_latin L Latin.lib →
  clean_text (PyStr (lit "RT @alice: Check http://x.co/abc #GoVote!!"))
  = Ok (lit ": check govote!!").
Proof.
  intros Hagree.
  rewrite (clean_text_agree basic_latin L Latin.lib Hagree _
             (lit "RT @alice: Check http://x.co/abc #GoVote!!"));
    [|by vm_compute|by vm_compute|by vm_compute|by apply Forall_basic_latin].
  clean_text_steps.
  assert (Html.unescape (H := Latin.lib) (lit "RT @alice: Check http://x.co/abc #GoVote!!")
          = Ok (lit "RT @alice: Check http://x.co/abc #GoVote!!")) as E by (by vm_compute).
  step E. cbv beta iota.
  assert (Re.sub RT_RE (λ _, []) (lit "RT @alice: Check http://x.co/abc #GoVote!!")
          = lit "@alice: Check http://x.co/abc #GoVote!!") as E by (by vm_compute).
  step E.
  assert (Re.sub URL_RE (λ _, []) (lit "@alice: Check http://x.co/abc #GoVote!!")
          = lit "@alice: Check  #GoVote!!") as E by (by vm_compute).
  step E.
  assert (Re.sub (MENTION_RE (H := Latin.lib)) (λ _, []) (lit "@alice: Check  #GoVote!!")
          = lit ": Check  #GoVote!!") as E by (by vm_compute).
  step E.
  assert (Re.sub (HASHTAG_RE (H := Latin.lib)) Re.backref1 (lit ": Check  #GoVote!!")
          = lit ": Check  GoVote!!") as E by (by vm_compute).
  step E.
  assert (replace_char 13 32 (replace_char 10 32 (lit ": Check  GoVote!!"))
          = lit ": Check  GoVote!!") as E by (by vm_compute).
  step E.
  assert (Re.sub MULTISPACE_RE (λ _, [32]) (lit ": Check  GoVote!!")
          = lit ": Check GoVote!!") as E by (by vm_compute).
  step E.
  by vm_compute.
Qed.

Lemma clean_text_retweet_example_witness :
  clean_text (H := Latin.lib) (PyStr (lit "RT @alice: Check http://x.co/abc #GoVote!!"))
  = Ok (lit ": check govote!!").
Proof.
  exact (clean_text_retweet_example (L := Latin.lib) (agrees_on_refl basic_latin Latin.lib)).
Defined.

(** C2, as stated, fails: the result is not ["check govote!!"]. *)
Lemma clean_text_retweet_keeps_colon :
  clean_text (H := Latin.lib) (PyStr (lit "RT @alice: Check http://x.co/abc #GoVote!!"))
  ≠ Ok (lit "check govote!!").
Proof. by vm_compute. Qed.



(** ** Masks *)

Lemma select_sublist {A} (mask : list bool) (l : list A) : select mask l `sublist_of` l.
Proof.
  revert mask. induction l as [|x l IH]; intros [|b mask]; simpl;
    try apply sublist_nil_l.
  destruct b; [by apply sublist_skip|by apply sublist_cons].
Qed.



Lemma select_length {A B} (mask : list bool) (l1 : list A) (l2 : list B) :
  length l1 = length l2 → length (select mask l1) = length (select mask l2).
Proof.
  revert mask l2. induction l1 as [|x l1 IH]; intros [|b mask] [|y l2]; simpl; try done.
  intros [= Hl]. destruct b; simpl; by rewrite (IH mask l2 Hl).
Qed.

Lemma select_Forall {A} (P : A → Prop) (mask : list bool) (l : list A) :
  Forall P l → Forall P (select mask l).
Proof.
  intros Hl. apply Forall_forall. intros x Hx.
  eapply Forall_forall; [exact Hl|]. eapply elem_of_sublist; [exact Hx|apply select_sublist].
Qed.

Lemma elem_of_map {A B} (f : A → B) (l : list A) (y : B) :
  y ∈ map f l ↔ ∃ x, y = f x ∧ x ∈ l.
Proof. exact (list_elem_of_fmap f l y). Qed.

(** ** First occurrences *)

Lemma duplicated_first {A} (key : A → pyval) (seen : gset pyval) (l : list A) :
  let kept := select (map negb (duplicated seen (map key l))) l in
  NoDup (map key kept)
  ∧ (∀ r, r ∈ kept → key r ∉ seen)
  ∧ (∀ r, r ∈ l → key r ∈ seen ∨ key r ∈ map key kept)
  ∧ (∀ r, r ∈ kept → ∃ l1 l2, l = l1 ++ r :: l2 ∧ key r ∉ map key l1).
Proof.
  revert seen. induction l as [|x l IH]; intros seen; simpl.
  - split; [constructor|]. repeat split; by intros r ?%elem_of_nil.
  - destruct (IH ({[key x]} ∪ seen)) as (Hnd & Hfresh & Hcov & Hfirst). clear IH.
    set (kept := select (map negb (duplicated ({[key x]} ∪ seen) (map key l))) l) in *.
    case_bool_decide as Hx; simpl.
    + split; [done|]. split; [|split].
      * intros r Hr Hin. apply (Hfresh r Hr). set_solver.
      * intros r [->|Hr]%elem_of_cons; [by left|].
        destruct (Hcov r Hr) as [Hs|Hk]; [|by right].
        apply elem_of_union in Hs as [->%elem_of_singleton|Hs]; by left.
      * intros r Hr. destruct (Hfirst r Hr) as (l1 & l2 & -> & Hn).
        exists (x :: l1), l2. split; [done|]. simpl.
        apply not_elem_of_cons. split; [|done].
        intros Heq. apply (Hfresh r Hr). set_solver.
    + split; [|split; [|split]].
      * constructor; [|done]. intros (r & Heq & Hr)%elem_of_map.
        apply (Hfresh r Hr). set_solver.
      * intros r [->|Hr]%elem_of_cons; [done|].
        intros Hin. apply (Hfresh r Hr). set_solver.
      * intros r [->|Hr]%elem_of_cons; [right; apply list_elem_of_here|].
        destruct (Hcov r Hr) as [Hs|Hk].
        -- apply elem_of_union in Hs as [->%elem_of_singleton|Hs];
             [right; apply list_elem_of_here|by left].
        -- right. by apply list_elem_of_further.
      * intros r [->|Hr]%elem_of_cons.
        -- exists [], l. split; [done|]. apply not_elem_of_nil.
        -- destruct (Hfirst r Hr) as (l1 & l2 & -> & Hn).
           exists (x :: l1), l2. split; [done|]. simpl.
           apply not_elem_of_cons. split; [|done].
           intros Heq. apply (Hfresh r Hr). set_solver.
Qed.

(** ** Labels and cells *)

Lemma col_index_Some c cols i :
  col_index c cols = Some i → cols !! i = Some c ∧ (i < length cols)%nat.
Proof.
  unfold col_index. destruct (list_find _ cols) as [[j y]|] eqn:E; [|done].
  intros [= <-]. apply list_find_Some in E as (Hj & -> & _).
  split; [done|]. by eapply lookup_lt_Some.
Qed.

Lemma col_index_None c cols : col_index c cols = None ↔ c ∉ cols.
Proof.
  unfold col_index. rewrite fmap_None, list_find_None, Forall_forall.
  split; [intros Hn Hin; by apply (Hn c)|intros Hn x Hx ->; done].
Qed.

Lemma col_index_elem_of c cols : c ∈ cols → is_Some (col_index c cols).
Proof.
  intros Hin. destruct (col_index c cols) eqn:E; [done|].
  by apply col_index_None in E.
Qed.

Lemma col_index_app_l c cols more :
  c ∈ cols → col_index c (cols ++ more) = col_index c cols.
Proof.
  intros Hin. unfold col_index.
  destruct (list_find_elem_of (λ x, x = c) cols c Hin eq_refl) as [[j y] E].
  rewrite E. by rewrite (list_find_app_l _ _ _ _ _ E).
Qed.

Lemma col_index_app_new c cols :
  c ∉ cols → col_index c (cols ++ [c]) = Some (length cols).
Proof.
  intros Hn. unfold col_index.
  assert (list_find (λ x, x = c) cols = None) as E.
  { apply list_find_None, Forall_forall. by intros x Hx ->. }
  rewrite list_find_app_r by done. simpl.
  by rewrite decide_True.
Qed.

Lemma cell_at_app_l i row more :
  (i < length row)%nat → cell_at i (row ++ more) = cell_at i row.
Proof. intros Hi. unfold cell_at. by rewrite lookup_app_l. Qed.

Lemma cell_at_app_new row v : cell_at (length row) (row ++ [v]) = v.
Proof. unfold cell_at. by rewrite list_lookup_middle. Qed.

Lemma cell_at_insert i row v :
  (i < length row)%nat → cell_at i (<[i := v]> row) = v.
Proof. intros Hi. unfold cell_at. by rewrite list_lookup_insert_eq. Qed.

Lemma zip_with_map_same {A B C} (f : A → B → C) (g : A → B) (l : list A) :
  zip_with f l (map g l) = map (λ x, f x (g x)) l.
Proof. induction l as [|x l IH]; simpl; [done|]. by rewrite IH. Qed.

Lemma zip_with_replicate {A B C} (f : A → B → C) (l : list A) (v : B) :
  zip_with f l (replicate (length l) v) = map (λ x, f x v) l.
Proof. induction l as [|x l IH]; simpl; [done|]. by rewrite IH. Qed.

(** ** Assignment to a column *)

Lemma setitem_scalar_present df c v :
  c ∈ columns df →
  setitem_scalar df c v =
    {| columns := columns df;
       rows := map (λ row, <[default 0%nat (col_index c (columns df)) := v]> row) (rows df) |}.
Proof.
  intros [i Hi]%col_index_elem_of. unfold setitem_scalar, setitem. rewrite Hi.
  by rewrite zip_with_replicate.
Qed.

Lemma setitem_scalar_absent df c v :
  c ∉ columns df →
  setitem_scalar df c v =
    {| columns := columns df ++ [c]; rows := map (λ row, row ++ [v]) (rows df) |}.
Proof.
  intros Hn%col_index_None. unfold setitem_scalar, setitem. rewrite Hn.
  by rewrite zip_with_replicate.
Qed.

Lemma setitem_scalar_rect df c v : rect df → rect (setitem_scalar df c v).
Proof.
  intros Hr. destruct (decide (c ∈ columns df)) as [Hin|Hn].
  - rewrite setitem_scalar_present by done. unfold rect in *. simpl.
    apply Forall_forall. intros r (r0 & -> & Hr0)%elem_of_map.
    rewrite length_insert. by eapply Forall_forall in Hr.
  - rewrite setitem_scalar_absent by done. unfold rect in *. simpl.
    apply Forall_forall. intros r (r0 & -> & Hr0)%elem_of_map.
    rewrite !length_app. simpl. f_equal. by eapply Forall_forall in Hr.
Qed.

Lemma setitem_scalar_columns df c v c' :
  c' ∈ columns (setitem_scalar df c v) ↔ c' = c ∨ c' ∈ columns df.
Proof.
  destruct (decide (c ∈ columns df)) as [Hin|Hn].
  - rewrite setitem_scalar_present by done. simpl.
    split; [by right|by intros [->|?]].
  - rewrite setitem_scalar_absent by done. simpl.
    rewrite elem_of_app, list_elem_of_singleton. tauto.
Qed.

(** ** Assignment of a scalar, row by row *)

Lemma setitem_scalar_rows df c v :
  rows (setitem_scalar df c v) = map (setitem_row df c v) (rows df).
Proof.
  unfold setitem_scalar, setitem, setitem_row.
  destruct (col_index c (columns df)); cbn [rows]; by rewrite zip_with_replicate.
Qed.

Lemma setitem_row_length df c v row :
  length row = length (columns df) →
  length (setitem_row df c v row) = length (columns (setitem_scalar df c v)).
Proof.
  intros Hlen. unfold setitem_row, setitem_scalar, setitem.
  destruct (col_index c (columns df)); cbn [columns]; [by rewrite length_insert|].
  rewrite !length_app. simpl. lia.
Qed.

Lemma field_setitem_row_eq df c v row :
  length row = length (columns df) →
  field (setitem_scalar df c v) c (setitem_row df c v row) = v.
Proof.
  intros Hlen. unfold field, setitem_row, setitem_scalar, setitem.
  destruct (col_index c (columns df)) as [i|] eqn:Hi; cbn [columns].
  - rewrite Hi. apply col_index_Some in Hi as [_ Hlt]. apply cell_at_insert. lia.
  - apply col_index_None in Hi. rewrite col_index_app_new by done.
    rewrite <- Hlen. apply cell_at_app_new.
Qed.

Lemma field_setitem_row_ne df c v c' row :
  c' ≠ c → length row = length (columns df) →
  field (setitem_scalar df c v) c' (setitem_row df c v row) = field df c' row.
Proof.
  intros Hne Hlen. unfold field, setitem_row, setitem_scalar, setitem.
  destruct (col_index c (columns df)) as [i|] eqn:Hi; cbn [columns].
  - destruct (col_index c' (columns df)) as [j|] eqn:Hj; [|done].
    unfold cell_at. rewrite list_lookup_insert_ne; [done|]. intros ->.
    apply col_index_Some in Hi as [Hi _]. apply col_index_Some in Hj as [Hj _].
    congruence.
  - destruct (decide (c' ∈ columns df)) as [Hin|Hn].
    + rewrite col_index_app_l by done.
      destruct (col_index_elem_of _ _ Hin) as [j Hj]. rewrite Hj.
      apply col_index_Some in Hj as [_ Hlt]. apply cell_at_app_l. lia.
    + assert (col_index c' (columns df ++ [c]) = None) as ->.
      { apply col_index_None. rewrite elem_of_app, list_elem_of_singleton. tauto. }
      apply col_index_None in Hn. by rewrite Hn.
Qed.

Lemma field_insert_eq df c i v row :
  col_index c (columns df) = Some i → length row = length (columns df) →
  field df c (<[i := v]> row) = v.
Proof.
  intros Hi Hlen. unfold field. rewrite Hi.
  apply col_index_Some in Hi as [_ Hlt]. apply cell_at_insert. lia.
Qed.

Lemma field_insert_ne df c i c' v row :
  col_index c (columns df) = Some i → c' ≠ c →
  field df c' (<[i := v]> row) = field df c' row.
Proof.
  intros Hi Hne. unfold field.
  destruct (col_index c' (columns df)) as [j|] eqn:Hj; [|done].
  unfold cell_at. rewrite list_lookup_insert_ne; [done|]. intros ->.
  apply col_index_Some in Hi as [Hi _]. apply col_index_Some in Hj as [Hj _].
  congruence.
Qed.

Lemma stamp_rows config df : rows (stamp config df) = map (stamp_row config df) (rows df).
Proof. unfold stamp. by rewrite !setitem_scalar_rows, map_map. Qed.

Lemma stamp_fields config df row :
  length row = length (columns df) →
  field (stamp config df) (lit "label") (stamp_row config df row) = PyStr (label config)
  ∧ field (stamp config df) (lit "year") (stamp_row config df row)
    = PyStr (str_of_int (year config))
  ∧ ∀ c, c ≠ lit "label" → c ≠ lit "year" →
      field (stamp config df) c (stamp_row config df row) = field df c row.
Proof.
  intros Hlen. unfold stamp, stamp_row.
  pose proof (setitem_row_length df (lit "label") (PyStr (label config)) row Hlen) as Hlen'.
  split; [|split].
  - rewrite field_setitem_row_ne by (done || lit_neq).
    by apply field_setitem_row_eq.
  - by apply field_setitem_row_eq.
  - intros c Hl Hy. rewrite field_setitem_row_ne by done.
    by apply field_setitem_row_ne.
Qed.

(** The cell that [clean_text] is applied to is the text of the reconciled
    row. *)
Lemma stamped_text config df row i :
  length row = length (columns df) →
  col_index (lit "text") (columns (stamp config df)) = Some i →
  cell_at i (stamp_row config df row) = field df (lit "text") row.
Proof.
  intros Hlen Hi. destruct (stamp_fields config df row Hlen) as (_ & _ & Hother).
  rewrite <- (Hother (lit "text")) by lit_neq. unfold field. by rewrite Hi.
Qed.

(** ** The stages of [load_and_clean] *)
Section Stages.
Context `{PyLib} {D : Type}.
Variable detect : option (pyval → D → result str * D).
Variable read_csv : str → result DataFrame.

Lemma bind_Ok {A B} (m : M A) (k : A → M B) d b d' :
  bind (D := D) m k d = (Ok b, d') →
  ∃ a d1, m d = (Ok a, d1) ∧ k a d1 = (Ok b, d').
Proof.
  unfold bind. destruct (m d) as [[a|e] d1] eqn:E; [|done].
  intros Hk. by exists a, d1.
Qed.

Lemma drop_columns_rect labels df : rect df → rect (drop_columns labels df).
Proof.
  unfold rect, drop_columns. simpl. intros Hr.
  apply Forall_forall. intros r (r0 & -> & Hr0)%elem_of_map.
  apply select_length. by eapply Forall_forall in Hr.
Qed.

Lemma drop_columns_sub labels df c :
  c ∈ columns (drop_columns labels df) → c ∈ columns df.
Proof. simpl. intros Hc. eapply elem_of_sublist; [exact Hc|apply select_sublist]. Qed.

Lemma reconcile_rect config raw : rect raw → rect (reconcile config raw).
Proof.
  intros Hr. unfold reconcile, rename, rect. simpl.
  rewrite length_map. case_bool_decide; [by apply drop_columns_rect|done].
Qed.

(** A label [text] of the reconciled table is the configured text column
    or a column that the raw table already calls [text]. *)
Lemma reconcile_text config raw :
  lit "text" ∈ columns (reconcile config raw) →
  text_col config ∈ columns raw ∨ lit "text" ∈ columns raw.
Proof.
  unfold reconcile, rename. simpl.
  intros (c & Hc & Hin)%elem_of_map.
  assert (c ∈ columns raw) as Hraw.
  { case_bool_decide; [by eapply drop_columns_sub|done]. }
  clear Hin. destruct (decide (c = text_col config)) as [->|Hne]; [by left|].
  rewrite lookup_insert_ne in Hc by done.
  destruct (decide (c = date_col config)) as [->|Hne'].
  { rewrite lookup_insert_eq in Hc. by vm_compute in Hc. }
  rewrite lookup_insert_ne in Hc by done.
  destruct (decide (c = id_col config)) as [->|Hne''].
  { rewrite lookup_singleton_eq in Hc. by vm_compute in Hc. }
  rewrite lookup_singleton_ne in Hc by done. simpl in Hc. right. by rewrite Hc.
Qed.

Lemma stamp_rect config df : rect df → rect (stamp config df).
Proof. intros Hr. unfold stamp. by do 2 apply setitem_scalar_rect. Qed.

Lemma stamp_columns config df c :
  c ∈ columns (stamp config df) ↔ c = lit "year" ∨ c = lit "label" ∨ c ∈ columns df.
Proof. unfold stamp. by rewrite !setitem_scalar_columns. Qed.

Lemma stamp_text config df :
  lit "text" ∈ columns (stamp config df) ↔ lit "text" ∈ columns df.
Proof.
  rewrite stamp_columns. split; [|by auto].
  intros [Hc|[Hc|Hc]]; [by vm_compute in Hc..|done].
Qed.

Lemma stamp_tweet_id config df :
  lit "tweet_id" ∈ columns (stamp config df) ↔ lit "tweet_id" ∈ columns df.
Proof.
  rewrite stamp_columns. split; [|by auto].
  intros [Hc|[Hc|Hc]]; [by vm_compute in Hc..|done].
Qed.

Lemma map_r_Ok {A B} (f : A → result B) (l : list A) ys :
  map_r f l = Ok ys → Forall2 (λ x y, f x = Ok y) l ys.
Proof.
  revert ys. induction l as [|x l IH]; intros ys; simpl.
  - intros [= <-]. constructor.
  - destruct (f x) as [y|] eqn:Hx; [|done].
    destruct (map_r f l) as [ys'|]; [|done]. intros [= <-]. constructor; [done|by apply IH].
Qed.

Lemma map_r_total {A B} (f : A → result B) (l : list A) :
  Forall (λ x, ∃ y, f x = Ok y) l → ∃ ys, map_r f l = Ok ys.
Proof.
  induction 1 as [|x l [y Hy] _ [ys Hys]]; simpl; [by eexists|].
  rewrite Hy, Hys. by eexists.
Qed.

Lemma map_r_Raise {A B} (f : A → result B) (l : list A) e :
  map_r f l = Raise e → ∃ x, x ∈ l ∧ f x = Raise e.
Proof.
  induction l as [|x l IH]; simpl; [done|].
  destruct (f x) as [y|e'] eqn:Hx.
  - destruct (map_r f l) as [ys|e'']; [done|]. intros [= <-].
    destruct IH as (x' & ? & ?); [done|]. exists x'. split; [by right|done].
  - intros [= <-]. exists x. split; [by left|done].
Qed.

Lemma map_r_cleaned texts ys :
  map_r clean_text texts = Ok ys →
  ys = map cleaned texts ∧ Forall (λ v, clean_text v = Ok (cleaned v)) texts.
Proof.
  intros Hall%map_r_Ok. induction Hall as [|v y texts ys Hv _ [-> IH]]; [done|].
  assert (cleaned v = y) as Hy by (unfold cleaned; by rewrite Hv).
  split; [simpl; by rewrite Hy|]. constructor; [by rewrite Hy|done].
Qed.

(** When the cleaning returns, the text of every row is replaced by what
    [clean_text] returns on it. *)
Lemma clean_column_Ok df i df1 :
  col_index (lit "text") (columns df) = Some i →
  clean_column df = Ok df1 →
  df1 = {| columns := columns df;
           rows := map (λ row, <[i := PyStr (cleaned (cell_at i row))]> row) (rows df) |}
  ∧ Forall (λ row, clean_text (cell_at i row) = Ok (cleaned (cell_at i row))) (rows df).
Proof.
  intros Hi. unfold clean_column, getitem, setitem. rewrite Hi.
  destruct (map_r clean_text _) as [ys|e] eqn:E; [|done]. intros [= <-].
  apply map_r_cleaned in E as [-> Hall]. split.
  - by rewrite !map_map, zip_with_map_same.
  - apply Forall_forall. intros row Hrow. rewrite Forall_forall in Hall.
    apply Hall, elem_of_map. by exists row.
Qed.

Lemma clean_column_total df i :
  col_index (lit "text") (columns df) = Some i →
  Forall (λ row, ∃ t, clean_text (cell_at i row) = Ok t) (rows df) →
  clean_column df =
    Ok {| columns := columns df;
          rows := map (λ row, <[i := PyStr (cleaned (cell_at i row))]> row) (rows df) |}.
Proof.
  intros Hi Hall.
  destruct (map_r_total clean_text (map (cell_at i) (rows df))) as [ys Hys].
  { apply Forall_forall. intros v (row & -> & Hrow)%elem_of_map.
    rewrite Forall_forall in Hall. by apply Hall. }
  assert (clean_column df = Ok (setitem df (lit "text") (map PyStr ys))) as Hc.
  { unfold clean_column, getitem. by rewrite Hi, Hys. }
  rewrite Hc. f_equal. by apply (clean_column_Ok df i _ Hi) in Hc as [-> _].
Qed.

(** The cleaning raises [KeyError] for a missing text column, or what
    [clean_text] raises. *)
Lemma clean_column_not_failure df e :
  clean_column df = Raise e → e ≠ LangDetectException.
Proof.
  unfold clean_column, getitem.
  destruct (col_index _ _); [|by intros [= <-]].
  destruct (map_r clean_text _) as [ys|e'] eqn:E; [done|]. intros [= <-].
  apply map_r_Raise in E as (v & _ & Hv). by apply clean_text_Raise in Hv as ->.
Qed.

Lemma clean_column_Raise df :
  lit "text" ∉ columns df → clean_column df = Raise (KeyError (lit "text")).
Proof.
  intros Hn%col_index_None. unfold clean_column, getitem. by rewrite Hn.
Qed.

Lemma is_english_not_failure text d :
  (is_english detect text d).1 ≠ Raise LangDetectException.
Proof.
  unfold is_english. destruct (negb (truthy text)); [done|].
  destruct detect as [det|].
  - destruct (det text d) as [[lang|e] d1]; [done|]. by destruct e.
  - by destruct text.
Qed.

Lemma is_english_total s d :
  only_detection_failures detect → ∃ b d', is_english detect (PyStr s) d = (Ok b, d').
Proof.
  intros Hdet. unfold is_english. destruct (negb (truthy (PyStr s))); [by eexists _, _|].
  destruct detect as [det|]; [|by eexists _, _].
  destruct (det (PyStr s) d) as [[lang|e] d1] eqn:E; [by eexists _, _|].
  rewrite (Hdet _ _ _ _ E). by eexists _, _.
Qed.

Lemma apply_is_english_Ok texts d mask d' :
  apply (is_english detect) texts d = (Ok mask, d') →
  Forall2 (λ t b, b = true → ∃ d1 d2, is_english detect t d1 = (Ok true, d2)) texts mask.
Proof.
  revert d mask d'. induction texts as [|t texts IH]; intros d mask d'; cbn [apply].
  - intros [= <- _]. constructor.
  - intros (b & d1 & Hb & (bs & d2 & Hbs & Hret)%bind_Ok)%bind_Ok.
    unfold ret in Hret. injection Hret as <- <-. constructor; [|by eapply IH].
    intros ->. by exists d, d1.
Qed.

Lemma apply_is_english_total texts d :
  only_detection_failures detect → Forall (λ t, ∃ s, t = PyStr s) texts →
  ∃ mask d', apply (is_english detect) texts d = (Ok mask, d').
Proof.
  intros Hdet Hs. revert d. induction Hs as [|t texts [s ->] _ IH]; intros d; cbn [apply].
  - by eexists _, _.
  - destruct (is_english_total s d Hdet) as (b & d1 & Hb).
    destruct (IH d1) as (bs & d2 & Hbs).
    unfold bind. rewrite Hb, Hbs. by eexists _, _.
Qed.

Lemma apply_is_english_not_failure texts d :
  (apply (is_english detect) texts d).1 ≠ Raise LangDetectException.
Proof.
  revert d. induction texts as [|t texts IH]; intros d; cbn [apply]; [done|].
  unfold bind. pose proof (is_english_not_failure t d) as Ht.
  destruct (is_english detect t d) as [[b|e] d1]; simpl in *;
    [|intros [= ->]; by apply Ht].
  specialize (IH d1). by destruct (apply _ texts d1) as [[bs|e] d2].
Qed.

Lemma select_mask_true {A} (f : A → bool) (l : list A) r :
  r ∈ select (map f l) l → f r = true.
Proof.
  induction l as [|x l IH]; simpl; [by intros ?%elem_of_nil|].
  destruct (f x) eqn:Hx; [|done]. by intros [->|?]%elem_of_cons; [|apply IH].
Qed.

Lemma select_Forall2 {A B} (g : A → B) (P : B → bool → Prop) (l : list A) mask r :
  Forall2 P (map g l) mask → r ∈ select mask l → P (g r) true.
Proof.
  revert mask. induction l as [|x l IH]; intros mask HP; simpl in *.
  - inversion HP; subst. by intros ?%elem_of_nil.
  - inversion HP as [|? b ? mask' Hb Hrest]; subst. simpl. destruct b.
    + intros [->|Hr]%elem_of_cons; [done|by eapply IH].
    + intros Hr. by eapply IH.
Qed.

(** The table before the duplicates are dropped: its columns are those of
    the stamped table, its rows are whole, and the text of every row is a
    string that is not empty and that [is_english] accepted. *)
Lemma cleaned_rows_Ok config raw d pre d' :
  rect raw → cleaned_rows detect config raw d = (Ok pre, d') →
  columns pre = columns (stamp config (reconcile config raw))
  ∧ rect pre
  ∧ lit "text" ∈ columns pre
  ∧ ∀ r, r ∈ rows pre →
      ∃ s, field pre (lit "text") r = PyStr s ∧ s ≠ []
           ∧ ∃ d1 d2, is_english detect (PyStr s) d1 = (Ok true, d2).
Proof.
  intros Hraw. unfold cleaned_rows.
  set (df0 := stamp config (reconcile config raw)).
  assert (rect df0) as Hr0 by apply stamp_rect, reconcile_rect, Hraw.
  intros (df1 & d1 & Hclean & (df2 & d2 & Heng & Hne)%bind_Ok)%bind_Ok.
  unfold lift in Hclean, Hne. injection Hclean as Hclean <-.
  injection Hne as Hne <-.
  destruct (col_index (lit "text") (columns df0)) as [i|] eqn:Hi.
  2: { apply col_index_None in Hi. by rewrite clean_column_Raise in Hclean. }
  apply (clean_column_Ok _ i _ Hi) in Hclean as [-> _].
  unfold filter_english, getitem in Heng. cbn [columns rows] in Heng. rewrite Hi in Heng.
  apply bind_Ok in Heng as (texts & d3 & Htexts & (mask & d4 & Hmask & Hret)%bind_Ok).
  unfold lift in Htexts. injection Htexts as <- <-.
  unfold ret in Hret. injection Hret as <- <-.
  unfold filter_nonempty, getitem in Hne. cbn [columns rows select_rows] in Hne.
  rewrite Hi in Hne. injection Hne as <-. cbn [columns rows select_rows].
  destruct (col_index_Some _ _ _ Hi) as [_ Hlt].
  split; [done|]. split; [|split].
  - unfold rect. cbn [columns rows select_rows]. do 2 apply select_Forall.
    apply Forall_forall. intros r (r0 & -> & Hin)%elem_of_map.
    rewrite length_insert. by eapply Forall_forall in Hr0.
  - apply list_elem_of_lookup. exists i. by apply col_index_Some.
  - intros r Hr. unfold field. cbn [columns select_rows]. rewrite Hi.
    rewrite map_map in Hr. pose proof (select_mask_true _ _ _ Hr) as Htruthy.
    simpl in Htruthy.
    pose proof (elem_of_sublist _ _ _ Hr (select_sublist _ _)) as Hr1.
    apply apply_is_english_Ok in Hmask.
    pose proof (select_Forall2 _ _ _ _ _ Hmask Hr1) as Heng. simpl in Heng.
    pose proof (elem_of_sublist _ _ _ Hr1 (select_sublist _ _)) as Hr2.
    clear Hr Hr1 Hmask. apply elem_of_map in Hr2 as (r0 & -> & Hin).
    assert (length r0 = length (columns df0)) as Hlen by (by eapply Forall_forall in Hr0).
    rewrite cell_at_insert in * by lia.
    eexists. split; [done|]. split; [|by apply Heng].
    by destruct (cleaned _).
Qed.

(** When the table has a text column and the detector raises nothing but
    detection failures, the cleaning stages return a table. *)
Lemma stamped_cleanable config df i :
  rect df → cleanable df →
  col_index (lit "text") (columns (stamp config df)) = Some i →
  Forall (λ row, ∃ t, clean_text (cell_at i row) = Ok t) (rows (stamp config df)).
Proof.
  intros Hrect Hclean Hi. rewrite stamp_rows.
  apply Forall_forall. intros r (row & -> & Hrow)%elem_of_map.
  assert (length row = length (columns df)) as Hlen by (by eapply Forall_forall in Hrect).
  rewrite (stamped_text config df row i) by done. by apply Hclean.
Qed.

Lemma cleaned_rows_total config raw d :
  rect raw → only_detection_failures detect →
  lit "text" ∈ columns (reconcile config raw) →
  cleanable (reconcile config raw) →
  ∃ pre d', cleaned_rows detect config raw d = (Ok pre, d').
Proof.
  intros Hraw Hdet Htext Hcl. unfold cleaned_rows.
  assert (rect (reconcile config raw)) as Hrec by apply reconcile_rect, Hraw.
  set (df0 := stamp config (reconcile config raw)).
  assert (rect df0) as Hr0 by apply stamp_rect, Hrec.
  apply (stamp_text config) in Htext. fold df0 in Htext.
  destruct (col_index_elem_of _ _ Htext) as [i Hi].
  destruct (col_index_Some _ _ _ Hi) as [_ Hlt].
  unfold bind at 1. unfold lift at 1.
  rewrite (clean_column_total _ i Hi) by (by apply stamped_cleanable).
  unfold filter_english, getitem. cbn [columns rows]. rewrite Hi.
  unfold bind at 2. unfold lift at 1.
  destruct (apply_is_english_total
              (map (cell_at i)
                 (map (λ row, <[i := PyStr (cleaned (cell_at i row))]> row) (rows df0))) d Hdet)
    as (mask & d1 & Hmask).
  { apply Forall_forall. intros t (r & -> & (r0 & -> & Hin)%elem_of_map)%elem_of_map.
    assert (length r0 = length (columns df0)) as Hlen by (by eapply Forall_forall in Hr0).
    rewrite cell_at_insert by lia. by eexists. }
  unfold bind. rewrite Hmask. unfold ret, lift, filter_nonempty, getitem.
  cbn [columns rows select_rows]. rewrite Hi. by eexists _, _.
Qed.

(** The cleaning stages never end in a detection failure. *)
Lemma cleaned_rows_not_failure config raw d :
  (cleaned_rows detect config raw d).1 ≠ Raise LangDetectException.
Proof.
  unfold cleaned_rows. set (df0 := stamp config (reconcile config raw)).
  unfold bind at 1. unfold lift at 1.
  destruct (clean_column df0) as [df1|e] eqn:Hc.
  2: { apply clean_column_not_failure in Hc. simpl. by intros [= ->]. }
  unfold filter_english. unfold bind at 2. unfold lift at 1.
  destruct (getitem df1 (lit "text")) as [texts|e] eqn:Hg.
  2: { unfold getitem in Hg. destruct (col_index _ _); [done|]. by injection Hg as <-. }
  unfold bind. pose proof (apply_is_english_not_failure texts d) as Ha.
  destruct (apply (is_english detect) texts d) as [[mask|e] d1]; simpl in *;
    [|intros [= ->]; by apply Ha].
  unfold lift, filter_nonempty, getitem. cbn [columns select_rows].
  unfold getitem in Hg. destruct (col_index _ _); [done|done].
Qed.

Lemma field_index df c i l :
  col_index c (columns df) = Some i → map (field df c) l = map (cell_at i) l.
Proof. intros Hi. apply map_ext. intros row. unfold field. by rewrite Hi. Qed.

Lemma deduplicate_Ok df :
  lit "text" ∈ columns df →
  deduplicate df =
    Ok (select_rows
          (map negb (duplicated ∅ (map (field df (dedup_key df)) (rows df)))) df).
Proof.
  intros Htext. unfold deduplicate, dedup_key, drop_duplicates, getitem.
  case_bool_decide as Hid.
  - destruct (col_index_elem_of _ _ Hid) as [k Hk]. rewrite Hk.
    by rewrite (field_index _ _ k).
  - destruct (col_index_elem_of _ _ Htext) as [k Hk]. rewrite Hk.
    by rewrite (field_index _ _ k).
Qed.

Lemma col_indices_Ok cols have :
  Forall (λ c, c ∈ have) cols →
  ∃ idx, col_indices cols have = Ok idx
         ∧ Forall2 (λ c i, col_index c have = Some i) cols idx.
Proof.
  induction 1 as [|c cols Hc _ (idx & Hidx & Hall)]; simpl.
  - exists []. by split; [|constructor].
  - destruct (col_index_elem_of _ _ Hc) as [i Hi]. rewrite Hi, Hidx.
    exists (i :: idx). by split; [|constructor].
Qed.

Lemma project_Ok cols df :
  Forall (λ c, c ∈ columns df) cols →
  project cols df =
    Ok {| columns := cols;
          rows := map (λ row, map (λ c, field df c row) cols) (rows df) |}.
Proof.
  intros (idx & Hidx & Hall)%col_indices_Ok. unfold project. rewrite Hidx.
  do 2 f_equal. apply map_ext. intros row. clear Hidx.
  induction Hall as [|c i cols idx Hi _ IH]; simpl; [done|].
  rewrite IH. unfold field at 2. by rewrite Hi.
Qed.

(** A canonical column that is missing reads as the empty string once
    [finish] has added it. *)
Lemma field_filled df c rows' col row :
  c ∉ columns df → length row = length (columns df) →
  col = c ∨ col ∈ columns df →
  field {| columns := columns df ++ [c]; rows := rows' |} col (row ++ [PyStr []])
  = field df col row.
Proof.
  intros Hc Hlen Hcol. unfold field. cbn [columns].
  destruct (decide (col = c)) as [->|Hne].
  - rewrite col_index_app_new by done.
    apply col_index_None in Hc. rewrite Hc, <- Hlen. apply cell_at_app_new.
  - destruct Hcol as [?|Hin]; [done|].
    rewrite col_index_app_l by done.
    destruct (col_index_elem_of _ _ Hin) as [i Hi]. rewrite Hi.
    apply col_index_Some in Hi as [_ Hlt]. apply cell_at_app_l. lia.
Qed.

Lemma finish_Ok df :
  rect df →
  lit "text" ∈ columns df → lit "label" ∈ columns df → lit "year" ∈ columns df →
  finish df = Ok {| columns := out_columns; rows := map (record df) (rows df) |}.
Proof.
  intros Hrect Htext Hlabel Hyear. unfold finish.
  assert (∀ df' col, col ∈ columns df' → fill_missing df' col = df') as Hkeep.
  { intros df' col Hin. unfold fill_missing.
    by rewrite bool_decide_eq_false_2 by (by intros Hn). }
  change (fold_left fill_missing out_columns df)
    with (fill_missing (fill_missing (fill_missing (fill_missing df
            (lit "tweet_id")) (lit "text")) (lit "label")) (lit "year")).
  destruct (decide (lit "tweet_id" ∈ columns df)) as [Hid|Hid].
  - rewrite (Hkeep df (lit "tweet_id")), (Hkeep df (lit "text")),
      (Hkeep df (lit "label")), (Hkeep df (lit "year")) by done.
    rewrite project_Ok; [done|].
    by repeat (constructor; [done|]).
  - unfold fill_missing at 4. rewrite bool_decide_eq_true_2 by done.
    rewrite setitem_scalar_absent by done.
    set (df' := {| columns := columns df ++ [lit "tweet_id"]; rows := _ |}).
    rewrite (Hkeep df' (lit "text")), (Hkeep df' (lit "label")),
      (Hkeep df' (lit "year")) by (cbn [columns df']; apply elem_of_app; by left).
    subst df'. rewrite project_Ok.
    2: { cbn [columns]. repeat (constructor; [apply elem_of_app|]);
           [right; apply list_elem_of_here|by left..]. }
    do 2 f_equal. cbn [rows]. rewrite map_map.
    apply map_ext_Forall. eapply Forall_impl; [exact Hrect|].
    intros row Hlen. cbn beta. unfold record.
    apply map_ext_Forall. unfold out_columns.
    repeat (constructor; [apply field_filled; [done|done|auto]|]). constructor.
Qed.

Lemma cleaned_rows_canonical config raw d pre d' :
  rect raw → cleaned_rows detect config raw d = (Ok pre, d') →
  lit "label" ∈ columns pre ∧ lit "year" ∈ columns pre
  ∧ dedup_key pre = dedup_key (reconcile config raw).
Proof.
  intros Hraw Hpre. destruct (cleaned_rows_Ok _ _ _ _ _ Hraw Hpre) as (Hcols & _).
  rewrite Hcols. repeat split; try (apply stamp_columns; by auto).
  unfold dedup_key.
  apply (f_equal (λ b : bool, if b then lit "tweet_id" else lit "text")).
  apply bool_decide_ext. rewrite Hcols. apply stamp_tweet_id.
Qed.

(** What [load_and_clean] returns: the canonical records of the first rows,
    by the key column, of the cleaned table. *)
Lemma load_and_clean_Ok config raw d out d' :
  read_csv (path config) = Ok raw → rect raw →
  load_and_clean detect read_csv config d = (Ok out, d') →
  ∃ pre, cleaned_rows detect config raw d = (Ok pre, d')
    ∧ out =
        {| columns := out_columns;
           rows :=
             map (record pre)
               (select (map negb (duplicated ∅ (map (field pre (dedup_key pre)) (rows pre))))
                  (rows pre)) |}.
Proof.
  intros Hread Hraw. unfold load_and_clean. rewrite Hread.
  intros (raw' & d0 & Hlift & Hrest)%bind_Ok.
  apply bind_Ok in Hrest as (pre & d1 & Hpre & (df & d2 & Hdedup & Hfin)%bind_Ok).
  unfold lift in Hlift, Hdedup, Hfin. injection Hlift as <- <-.
  injection Hdedup as Hdedup <-. injection Hfin as Hfin <-.
  exists pre. split; [done|].
  destruct (cleaned_rows_Ok _ _ _ _ _ Hraw Hpre) as (Hcols & Hrect & Htext & _).
  destruct (cleaned_rows_canonical _ _ _ _ _ Hraw Hpre) as (Hlabel & Hyear & _).
  rewrite deduplicate_Ok in Hdedup by done. injection Hdedup as <-.
  rewrite finish_Ok in Hfin; [by injection Hfin as <-| |done..].
  unfold rect. cbn [rows columns select_rows]. by apply select_Forall.
Qed.

(** ** The output of [load_and_clean] *)

(** C5: no record of the output has an empty text: the text of every output
    record is a string that is not empty. *)
Theorem output_text_nonempty config raw d out d' :
  read_csv (path config) = Ok raw → well_formed config raw →
  load_and_clean detect read_csv config d = (Ok out, d') →
  ∃ texts, getitem out (lit "text") = Ok texts
    ∧ Forall (λ v, ∃ s, v = PyStr s ∧ s ≠ []) texts.
Proof.
  intros Hread (_ & Hraw & _) Hout.
  destruct (load_and_clean_Ok _ _ _ _ _ Hread Hraw Hout) as (pre & Hpre & ->).
  destruct (cleaned_rows_Ok _ _ _ _ _ Hraw Hpre) as (_ & _ & _ & Hrows).
  eexists. split; [reflexivity|]. cbn [rows].
  apply Forall_forall. intros v (rec & -> & (r & -> & Hr)%elem_of_map)%elem_of_map.
  pose proof (elem_of_sublist _ _ _ Hr (select_sublist _ _)) as Hin.
  destruct (Hrows r Hin) as (s & Hs & Hne & _).
  exists s. by split.
Qed.

(** C4, as amended: the output holds one record for each value of the key
    column (the tweet id when the reconciled table has that column, the
    cleaned text otherwise), in the order of the rows, and the record of a
    value is that of the first row with this value among the rows that
    passed the language filter and the filter of empty texts.  A row that
    these filters drop is no occurrence. *)
Theorem dedup_keeps_first config raw d out d' :
  read_csv (path config) = Ok raw → well_formed config raw →
  load_and_clean detect read_csv config d = (Ok out, d') →
  ∃ pre kept,
    cleaned_rows detect config raw d = (Ok pre, d')
    ∧ rows out = map (record pre) kept
    ∧ kept `sublist_of` rows pre
    ∧ let key := field pre (dedup_key (reconcile config raw)) in
      NoDup (map key kept)
      ∧ (∀ r, r ∈ rows pre → key r ∈ map key kept)
      ∧ (∀ r, r ∈ kept → ∃ l1 l2, rows pre = l1 ++ r :: l2 ∧ key r ∉ map key l1).
Proof.
  intros Hread (_ & Hraw & _) Hout.
  destruct (load_and_clean_Ok _ _ _ _ _ Hread Hraw Hout) as (pre & Hpre & ->).
  destruct (cleaned_rows_canonical _ _ _ _ _ Hraw Hpre) as (_ & _ & <-).
  eexists pre, _. split; [done|]. split; [reflexivity|].
  split; [apply select_sublist|].
  destruct (duplicated_first (field pre (dedup_key pre)) ∅ (rows pre))
    as (Hnd & _ & Hcov & Hfirst).
  repeat split; [done| |done].
  intros r Hr. destruct (Hcov r Hr) as [Habs|?]; [|done]. by apply elem_of_empty in Habs.
Qed.

(** C3, as amended: [load_and_clean] raises [KeyError] for [text], and
    returns no dataset, when the configured text column is missing from the raw
    table and no column of the raw table is itself called [text].  A missing
    id or date column raises nothing.  For a raw table that has a row, one
    cell per column in every row, and labels that are distinct once
    reconciled and hold [text]; whose texts are all texts that [clean_text]
    returns on; and for a detector that raises nothing but detection
    failures: a dataset of the four canonical columns is returned, and when
    the reconciled table has no [tweet_id] column the tweet id of every
    record is the empty string. *)
Theorem load_and_clean_missing_columns config raw :
  read_csv (path config) = Ok raw →
  (text_col config ∉ columns raw → lit "text" ∉ columns raw →
   ∀ d, load_and_clean detect read_csv config d = (Raise (KeyError (lit "text")), d))
  ∧ (well_formed config raw → cleanable (reconcile config raw) →
     only_detection_failures detect →
     lit "text" ∈ columns (reconcile config raw) →
     ∀ d, ∃ out d',
       load_and_clean detect read_csv config d = (Ok out, d')
       ∧ columns out = out_columns
       ∧ (lit "tweet_id" ∉ columns (reconcile config raw) →
          ∀ row, row ∈ rows out → row !! 0%nat = Some (PyStr []))).
Proof.
  intros Hread. split.
  - intros Hcol Htext d. unfold load_and_clean, cleaned_rows.
    rewrite Hread. unfold bind, lift.
    rewrite clean_column_Raise; [done|].
    rewrite stamp_text. intros [?|?]%reconcile_text; done.
  - intros (_ & Hraw & _) Hcl Hdet Htext d.
    destruct (cleaned_rows_total config raw d Hraw Hdet Htext Hcl) as (pre & d' & Hpre).
    destruct (cleaned_rows_Ok _ _ _ _ _ Hraw Hpre) as (Hcols & Hrect & Htext' & _).
    destruct (cleaned_rows_canonical _ _ _ _ _ Hraw Hpre) as (Hlabel & Hyear & _).
    assert (∃ out, load_and_clean detect read_csv config d = (Ok out, d')) as [out Hout].
    { unfold load_and_clean. rewrite Hread. unfold bind at 1. unfold lift at 1.
      unfold bind at 1. rewrite Hpre. unfold bind, lift.
      rewrite deduplicate_Ok by done. rewrite finish_Ok; [by eexists| |done..].
      unfold rect. cbn [rows columns select_rows]. by apply select_Forall. }
    exists out, d'. split; [done|].
    destruct (load_and_clean_Ok _ _ _ _ _ Hread Hraw Hout) as (pre' & Hpre' & ->).
    rewrite Hpre in Hpre'. injection Hpre' as <-.
    split; [done|]. cbn [rows]. intros Hid row (r & -> & _)%elem_of_map.
    change (record pre r !! 0%nat) with (Some (field pre (lit "tweet_id") r)).
    assert (lit "tweet_id" ∉ columns pre) as Hn%col_index_None.
    { rewrite Hcols. by rewrite stamp_tweet_id. }
    unfold field. by rewrite Hn.
Qed.

End Stages.

(** ** The language filter *)

(** C6: a text on which the detector raises a detection failure is judged
    not English, no output record carries it, and [load_and_clean] never ends
    in the detection failure. *)
Theorem detection_failure_rejects `{PyLib} {D : Type}
    (det : pyval → D → result str * D) (read_csv : str → result DataFrame)
    (config : Config) (raw : DataFrame) (s : str) :
  read_csv (path config) = Ok raw → well_formed config raw →
  (∀ d, (det (PyStr s) d).1 = Raise LangDetectException) →
  (∀ d, (is_english (Some det) (PyStr s) d).1 = Ok false)
  ∧ (∀ d out d' texts,
       load_and_clean (Some det) read_csv config d = (Ok out, d') →
       getitem out (lit "text") = Ok texts → PyStr s ∉ texts)
  ∧ (∀ d, (load_and_clean (Some det) read_csv config d).1 ≠ Raise LangDetectException).
Proof.
  intros Hread (_ & Hraw & _) Hfail.
  assert (∀ d, (is_english (Some det) (PyStr s) d).1 = Ok false) as Hrej.
  { intros d. unfold is_english. destruct (negb (truthy (PyStr s))); [done|].
    specialize (Hfail d). destruct (det (PyStr s) d) as [[lang|e] d1]; [done|].
    simpl in Hfail. by injection Hfail as ->. }
  split; [done|]. split.
  - intros d out d' texts Hout.
    destruct (load_and_clean_Ok _ _ _ _ _ _ _ Hread Hraw Hout) as (pre & Hpre & ->).
    destruct (cleaned_rows_Ok _ _ _ _ _ _ Hraw Hpre) as (_ & _ & _ & Hrows).
    intros [= <-]. cbn [rows].
    intros (rec & Hv & (r & -> & Hr)%elem_of_map)%elem_of_map.
    pose proof (elem_of_sublist _ _ _ Hr (select_sublist _ _)) as Hin.
    destruct (Hrows r Hin) as (s' & Hs & _ & d1 & d2 & Heng).
    change (cell_at 1 (record pre r)) with (field pre (lit "text") r) in Hv.
    rewrite Hs in Hv. injection Hv as ->.
    specialize (Hrej d1). by rewrite Heng in Hrej.
  - intros d. unfold load_and_clean. rewrite Hread. unfold bind at 1. unfold lift at 1.
    unfold bind at 1.
    pose proof (cleaned_rows_not_failure (Some det) config raw d) as Hnf.
    destruct (cleaned_rows (Some det) config raw d) as [[pre|e] d1] eqn:Hpre;
      simpl in Hnf; [|simpl; intros [= ->]; by apply Hnf].
    destruct (cleaned_rows_Ok _ _ _ _ _ _ Hraw Hpre) as (_ & Hrect & Htext' & _).
    destruct (cleaned_rows_canonical _ _ _ _ _ _ Hraw Hpre) as (Hlabel & Hyear & _).
    unfold bind, lift. rewrite deduplicate_Ok by done. rewrite finish_Ok; [done| |done..].
    unfold rect. cbn [rows columns select_rows]. by apply select_Forall.
Qed.

(** The import of line 22 binds [detect] to a detector or fails: [None] is a
    value the name takes only when it is assigned after the import. *)
Remark import_detect_bound {D : Type} (package : option (pyval → D → result str * D)) detect :
  import_detect package = Ok detect → detect ≠ None.
Proof. destruct package; [by intros [= <-]|done]. Qed.

(** The branch [if detect is None] of [is_english]: were the name [detect]
    ever [None], a text would be English exactly when it is not empty and all
    its characters are ASCII. *)
Remark is_english_without_detector `{PyLib} {D : Type} (s : str) (d : D) :
  is_english None (PyStr s) d
  = (Ok (bool_decide (s ≠ [] ∧ Forall (λ c, c < 128) s)), d).
Proof.
  assert (∀ l, isascii l = true ↔ Forall (λ c, c < 128) l) as Hascii.
  { intros l. unfold isascii. rewrite forallb_forall, Forall_forall.
    split; intros Hl x Hx; [apply Z.ltb_lt, Hl|apply Z.ltb_lt, Hl];
      by apply list_elem_of_In. }
  unfold is_english. destruct s as [|c s]; [done|].
  cbn [truthy negb isascii_method]. do 2 f_equal. apply eq_true_iff_eq.
  rewrite bool_decide_eq_true, Hascii. split; [by intros ?|by intros [_ ?]].
Qed.

(** C7 fails on the code: there is no fallback.  When the package is not
    installed the import of line 22 raises and [is_english] checks nothing,
    whatever the text; when it is installed [is_english] runs with the
    detector.  The branch [if detect is None] is never taken. *)
Theorem is_english_no_fallback {D : Type} (text : pyval) (d : D) :
  is_english_loaded None text d = (Raise (OtherError (lit "ModuleNotFoundError")), d)
  ∧ ∀ det, is_english_loaded (Some det) text d = is_english (Some det) text d.
Proof. by split. Qed.

(** C7 at an ASCII text: the claim has [True], the module raises. *)
Lemma is_english_no_fallback_hello :
  is_english_loaded (D := nat) None (Sample.s "hello") 0%nat
  = (Raise (OtherError (lit "ModuleNotFoundError")), 0%nat)
  ∧ is_english (D := nat) None (Sample.s "hello") 0%nat = (Ok true, 0%nat).
Proof. by vm_compute. Qed.

(** ** The pipeline on the sample exports *)

Lemma democrat_in_FILES : FILES !! 0%nat = Some Sample.democrat.
Proof. reflexivity. Qed.

Lemma sample_detect_only_failures : only_detection_failures (Some Sample.detect).
Proof.
  intros s d e d'. unfold Sample.detect.
  destruct (negb (Sample.has_letter s)); [by intros [= <- _]|].
  by destruct (isascii s).
Qed.

Lemma democrat_2020_well_formed :
  well_formed Sample.democrat Sample.democrat_2020.
Proof.
  split; [|split].
  - apply (bool_decide_unpack _). by vm_compute.
  - unfold rect. by repeat constructor.
  - done.
Qed.

Lemma text_only_well_formed :
  well_formed Sample.democrat Sample.text_only.
Proof.
  split; [|split].
  - apply (bool_decide_unpack _). by vm_compute.
  - unfold rect. by repeat constructor.
  - done.
Qed.

Lemma democrat_2020_cleanable :
  cleanable (H := Latin.lib) (reconcile Sample.democrat Sample.democrat_2020).
Proof. rows_cleanable. Qed.

Lemma text_only_cleanable :
  cleanable (H := Latin.lib) (reconcile Sample.democrat Sample.text_only).
Proof. rows_cleanable. Qed.

Lemma text_only_has_text :
  bool_decide (lit "text" ∈ columns (reconcile Sample.democrat Sample.text_only)) = true.
Proof. by vm_compute. Qed.

Lemma democrat_2020_run :
  load_and_clean (H := Latin.lib) (Some Sample.detect) Sample.full_export Sample.democrat 0%nat
  = (Ok Sample.democrat_2020_cleaned, 5%nat).
Proof. by vm_compute. Qed.

Lemma text_only_run :
  load_and_clean (H := Latin.lib) (Some Sample.detect) Sample.export_without_id
    Sample.democrat 0%nat
  = (Ok Sample.text_only_cleaned, 3%nat).
Proof. by vm_compute. Qed.

Lemma output_text_nonempty_witness :
  ∃ texts, getitem Sample.democrat_2020_cleaned (lit "text") = Ok texts
    ∧ Forall (λ v, ∃ s, v = PyStr s ∧ s ≠ []) texts.
Proof.
  exact (output_text_nonempty (H := Latin.lib) (Some Sample.detect) Sample.full_export
           Sample.democrat Sample.democrat_2020 0%nat _ _
           eq_refl democrat_2020_well_formed democrat_2020_run).
Defined.

Lemma dedup_keeps_first_witness :
  ∃ pre kept,
    cleaned_rows (H := Latin.lib) (Some Sample.detect) Sample.democrat Sample.democrat_2020 0%nat
      = (Ok pre, 5%nat)
    ∧ rows Sample.democrat_2020_cleaned = map (record pre) kept
    ∧ kept `sublist_of` rows pre
    ∧ let key := field pre (dedup_key (reconcile Sample.democrat Sample.democrat_2020)) in
      NoDup (map key kept)
      ∧ (∀ r, r ∈ rows pre → key r ∈ map key kept)
      ∧ (∀ r, r ∈ kept → ∃ l1 l2, rows pre = l1 ++ r :: l2 ∧ key r ∉ map key l1).
Proof.
  exact (dedup_keeps_first (H := Latin.lib) (Some Sample.detect) Sample.full_export
           Sample.democrat Sample.democrat_2020 0%nat _ _
           eq_refl democrat_2020_well_formed democrat_2020_run).
Defined.

(** C4, as stated, fails: the two rows of the table have the tweet id 11;
    the first one is French and is dropped by the language filter, and the
    output holds the record of the second one, not of the first. *)
Lemma dedup_first_row_filtered :
  rows (reconcile Sample.democrat Sample.french_first)
  = [ [Sample.s "11"; Sample.s "les bureaux sont ouverts à midi"];
      [Sample.s "11"; Sample.s "Polls are open"] ]
  ∧ (load_and_clean (H := Latin.lib) (Some Sample.detect) Sample.export_french_first
       Sample.democrat 0%nat).1
    = Ok {| columns := out_columns;
            rows := [ [Sample.s "11"; Sample.s "polls are open"; Sample.s "democrat";
                       Sample.s "2020"] ] |}
  ∧ [Sample.s "11"; Sample.s "les bureaux sont ouverts à midi"; Sample.s "democrat";
     Sample.s "2020"]
    ∉ [ [Sample.s "11"; Sample.s "polls are open"; Sample.s "democrat"; Sample.s "2020"] ].
Proof.
  split; [by vm_compute|]. split; [by vm_compute|].
  apply (bool_decide_unpack _). by vm_compute.
Qed.

(** C3, as stated, fails: the export has neither the configured id column
    nor the configured date column, and [load_and_clean] returns a dataset,
    de-duplicated by text, with empty tweet ids. *)
Lemma missing_id_and_date_tolerated :
  (id_col Sample.democrat ∉ columns Sample.text_only)
  ∧ (date_col Sample.democrat ∉ columns Sample.text_only)
  ∧ Sample.export_without_id (path Sample.democrat) = Ok Sample.text_only
  ∧ (load_and_clean (H := Latin.lib) (Some Sample.detect) Sample.export_without_id
       Sample.democrat 0%nat).1
    = Ok Sample.text_only_cleaned.
Proof.
  split; [apply (bool_decide_unpack _); by vm_compute|].
  split; [apply (bool_decide_unpack _); by vm_compute|].
  split; [done|]. by rewrite text_only_run.
Qed.

Lemma load_and_clean_missing_columns_witness :
  (∀ d : nat,
     load_and_clean (H := Latin.lib) (Some Sample.detect) Sample.export_without_text
       Sample.democrat d
     = (Raise (KeyError (lit "text")), d))
  ∧ (∀ d : nat, ∃ out d',
       load_and_clean (H := Latin.lib) (Some Sample.detect) Sample.export_without_id
         Sample.democrat d
       = (Ok out, d')
       ∧ columns out = out_columns
       ∧ ∀ row, row ∈ rows out → row !! 0%nat = Some (PyStr [])).
Proof.
  split.
  - apply (proj1 (load_and_clean_missing_columns (H := Latin.lib) (Some Sample.detect)
                    Sample.export_without_text Sample.democrat Sample.no_text eq_refl));
      apply (bool_decide_unpack _); by vm_compute.
  - intros d.
    destruct (proj2 (load_and_clean_missing_columns (H := Latin.lib) (Some Sample.detect)
                       Sample.export_without_id Sample.democrat Sample.text_only eq_refl)
                text_only_well_formed text_only_cleanable sample_detect_only_failures
                (bool_decide_eq_true_1 _ text_only_has_text) d)
      as (out & d' & Hout & Hcols & Hid).
    exists out, d'. split; [done|]. split; [done|].
    apply Hid. apply (bool_decide_unpack _). by vm_compute.
Defined.

Lemma detection_failure_rejects_witness :
  (∀ d, (is_english (Some Sample.detect) (Sample.s "!!! ???") d).1 = Ok false)
  ∧ (∀ d out d' texts,
       load_and_clean (H := Latin.lib) (Some Sample.detect) Sample.full_export
         Sample.democrat d = (Ok out, d') →
       getitem out (lit "text") = Ok texts → Sample.s "!!! ???" ∉ texts)
  ∧ (∀ d, (load_and_clean (H := Latin.lib) (Some Sample.detect) Sample.full_export
             Sample.democrat d).1 ≠ Raise LangDetectException).
Proof.
  exact (detection_failure_rejects (H := Latin.lib) Sample.detect Sample.full_export
           Sample.democrat Sample.democrat_2020 (lit "!!! ???")
           eq_refl democrat_2020_well_formed (λ d, eq_refl)).
Defined.

(** * Further properties *)

(** ** What [re.sub] keeps of its subject, further *)

(** A substitution whose replacement is made of the text it replaces only
    deletes: the result is a sublist of the subject. *)
Lemma sub_from_sublist r repl b s :
  (∀ g rest t, default [] g ++ rest `sublist_of` t → repl g ++ rest `sublist_of` t) →
  Re.sub_from r repl b 0 s `sublist_of` s.
Proof.
  intros Hrepl. remember (length s) as n eqn:Hn. revert b s Hn.
  induction n as [n IH] using lt_wf_ind. intros b s ->.
  assert (∀ g rest, Re.match_at r b false s = Some (g, rest) ∨
                    Re.match_at r b true s = Some (g, rest) →
            rest `suffix_of` s ∧ repl g ++ rest `sublist_of` s) as Hm.
  { intros g rest [Hm|Hm]; apply match_at_sublist in Hm as [? ?]; split; auto. }
  destruct s as [|c s]; cbn [Re.sub_from].
  - destruct (Re.match_at r b false []) as [[g rest]|] eqn:E; [|done].
    destruct (Hm g rest (or_introl eq_refl)) as [Hsuf Hsub].
    apply suffix_nil_inv in Hsuf as ->. by rewrite app_nil_r in Hsub.
  - assert (∀ g rest k, rest `suffix_of` c :: s → repl g ++ rest `sublist_of` c :: s →
              (length (c :: s) - length rest)%nat = S k →
              repl g ++ Re.sub_from r repl false k s `sublist_of` c :: s) as Hjump.
    { intros g rest k Hsuf Hsub Hk.
      pose proof (suffix_length _ _ Hsuf) as Hlen.
      rewrite sub_from_skip by (simpl in *; lia).
      assert (drop k s = rest) as ->.
      { rewrite <- (suffix_drop_length rest (c :: s) Hsuf), Hk. done. }
      etrans; [|exact Hsub]. apply sublist_app; [done|].
      eapply (IH (length rest)); [simpl in *; lia|done]. }
    assert (c :: Re.sub_from r repl false 0 s `sublist_of` c :: s) as Hstep.
    { apply sublist_skip. eapply (IH (length s)); [simpl; lia|done]. }
    destruct (Re.match_at r b false (c :: s)) as [[g rest]|] eqn:E; [|done].
    destruct (Hm g rest (or_introl eq_refl)) as [Hsuf Hsub].
    destruct (length (c :: s) - length rest)%nat as [|k] eqn:Hk; [|by eapply Hjump].
    assert (rest = c :: s) as ->.
    { pose proof (suffix_length _ _ Hsuf).
      rewrite <- (suffix_drop_length rest (c :: s) Hsuf), Hk. done. }
    assert (repl g = []) as ->.
    { apply sublist_length in Hsub. rewrite length_app in Hsub.
      destruct (repl g); [done|simpl in Hsub; lia]. }
    cbn [app].
    destruct (Re.match_at r b true (c :: s)) as [[g' rest']|] eqn:E'; [|done].
    destruct (Hm g' rest' (or_intror eq_refl)) as [Hsuf' Hsub'].
    destruct (length (c :: s) - length rest')%nat as [|k'] eqn:Hk'; [|by eapply Hjump].
    assert (rest' = c :: s) as ->.
    { rewrite <- (suffix_drop_length rest' (c :: s) Hsuf'), Hk'. done. }
    assert (repl g' = []) as ->.
    { apply sublist_length in Hsub'. rewrite length_app in Hsub'.
      destruct (repl g'); [done|simpl in Hsub'; lia]. }
    cbn [app Nat.pred]. apply sublist_cons. eapply (IH (length s)); [simpl; lia|done].
Qed.

Lemma sub_delete_sublist r s : Re.sub r (λ _, []) s `sublist_of` s.
Proof.
  apply sub_from_sublist. intros g rest t Hs. etrans; [|exact Hs].
  by apply sublist_inserts_l.
Qed.

Lemma sub_backref_sublist r s : Re.sub r Re.backref1 s `sublist_of` s.
Proof. by apply sub_from_sublist. Qed.

Lemma sub_from_nomatch r repl s :
  (∀ m t, Re.match_at r false m t = None) → Re.sub_from r repl false 0 s = s.
Proof.
  intros Hno. induction s as [|c s IH]; cbn [Re.sub_from]; rewrite Hno; [done|].
  by rewrite IH.
Qed.

(** A pattern that cannot match after the start of the string is replaced
    at most once, at the start: what is left is a suffix of the subject. *)
Lemma sub_anchored_suffix r s :
  (∀ m t, Re.match_at r false m t = None) → Re.sub r (λ _, []) s `suffix_of` s.
Proof.
  intros Hno. unfold Re.sub.
  assert (∀ m c s' g rest k, Re.match_at r true m (c :: s') = Some (g, rest) →
            (length (c :: s') - length rest)%nat = S k →
            Re.sub_from r (λ _, []) false k s' `suffix_of` c :: s') as Hjump.
  { intros m c s' g rest k [Hsuf _]%match_at_sublist Hk.
    pose proof (suffix_length _ _ Hsuf) as Hlen.
    rewrite sub_from_skip by (simpl in *; lia).
    rewrite sub_from_nomatch by done.
    apply suffix_cons_r. exists (take k s'). by rewrite take_drop. }
  destruct s as [|c s]; cbn [Re.sub_from].
  - by destruct (Re.match_at r true false []) as [[g rest]|].
  - rewrite !sub_from_nomatch by done.
    destruct (Re.match_at r true false (c :: s)) as [[g rest]|] eqn:E; [|done].
    cbn [app]. destruct (length (c :: s) - length rest)%nat as [|k] eqn:Hk.
    + destruct (Re.match_at r true true (c :: s)) as [[g' rest']|] eqn:E'; [|done].
      cbn [app]. destruct (length (c :: s) - length rest')%nat as [|k'] eqn:Hk'.
      * cbn [Nat.pred]. rewrite sub_from_nomatch by done. by apply suffix_cons_r.
      * cbn [Nat.pred]. by eapply Hjump.
    + by eapply Hjump.
Qed.

(** ** White space only *)

Lemma lstrip_nil s : lstrip s = [] ↔ Forall (λ c, is_space c = true) s.
Proof.
  induction s as [|c s IH]; simpl; [by split; [constructor|]|].
  destruct (is_space c) eqn:Hc.
  - rewrite IH. split; [by constructor|by inversion 1].
  - split; [done|]. inversion 1; congruence.
Qed.

Lemma strip_nil s : strip s = [] ↔ Forall (λ c, is_space c = true) s.
Proof.
  unfold strip, rstrip. split.
  - intros Hs.
    assert (lstrip (rev (lstrip s)) = []) as Hl.
    { destruct (lstrip (rev (lstrip s))); [done|].
      simpl in Hs. by apply app_eq_nil in Hs as [_ ?]. }
    apply lstrip_nil in Hl. apply lstrip_nil.
    destruct (lstrip s) as [|c r] eqn:E; [done|].
    apply lstrip_head in E. rewrite Forall_forall in Hl. specialize (Hl c).
    rewrite Hl in E; [done|]. simpl. apply elem_of_app. right. apply list_elem_of_here.
  - intros Hs%lstrip_nil. by rewrite Hs.
Qed.

Lemma squeeze_blank f s :
  Forall (λ c, is_space c = true) (squeeze f s) ↔ Forall (λ c, is_space c = true) s.
Proof.
  revert f. induction s as [|c s IH]; intros f; simpl; [done|].
  destruct (is_space c) eqn:Hc.
  - destruct f.
    + rewrite IH. split; [by constructor|by inversion 1].
    + rewrite !Forall_cons, IH. by split; intros [_ ?].
  - rewrite !Forall_cons. split; intros [? _]; congruence.
Qed.

Lemma replace_breaks_blank s :
  Forall (λ c, is_space c = true) (replace_char 13 32 (replace_char 10 32 s))
  ↔ Forall (λ c, is_space c = true) s.
Proof.
  unfold replace_char. induction s as [|c s IH]; simpl; [done|].
  rewrite !Forall_cons, IH.
  destruct (Z.eqb_spec c 10) as [->|H10]; [done|].
  destruct (Z.eqb_spec c 13) as [->|H13]; done.
Qed.

Lemma normalize_space_blank `{PyLib} y :
  Forall (λ c, is_space c = true) y → normalize_space y = [].
Proof.
  intros Hy. unfold normalize_space. rewrite sub_multispace.
  assert (strip (squeeze false (replace_char 13 32 (replace_char 10 32 y))) = []) as ->; [|done].
  by apply strip_nil, squeeze_blank, replace_breaks_blank.
Qed.

Lemma normalize_space_nil `{PyLib} y :
  lower_keeps_nonspace →
  normalize_space y = [] → Forall (λ c, is_space c = true) y.
Proof.
  intros Hns. unfold normalize_space. rewrite sub_multispace.
  set (t := squeeze false _). intros Hlow.
  apply replace_breaks_blank, (squeeze_blank false), strip_nil. fold t.
  destruct (strip t) as [|c r] eqn:E; [done|exfalso].
  assert (is_space c = false) as Hc.
  { apply (normal_head (c :: r)); [|done]. rewrite <- E.
    eapply strip_normal, squeeze_single_spaced. }
  destruct (lowered_nonspace [] c r Hns Hc) as [Hne _]. simpl in Hne.
  unfold lower in Hlow. cbn [do_lower] in Hlow. by apply app_eq_nil in Hlow as [? _].
Qed.

(** ** The token rules *)

Lemma unescape_plain `{PyLib} x : 38 ∉ x → Html.unescape x = Ok x.
Proof.
  intros Hx. unfold Html.unescape.
  destruct (existsb (Z.eqb 38) x) eqn:E; [|done].
  apply existsb_exists in E as (c & Hc%list_elem_of_In & Heq%Z.eqb_eq). by subst c.
Qed.

Lemma strip_markers_sublist `{PyLib} t : strip_markers t `sublist_of` t.
Proof.
  unfold strip_markers.
  etrans; [apply sub_backref_sublist|].
  etrans; [apply sub_delete_sublist|].
  etrans; [apply sub_delete_sublist|]. apply sub_delete_sublist.
Qed.

Lemma rt_not_after_start m t : Re.match_at RT_RE false m t = None.
Proof. done. Qed.

(** * The text normalizer, further *)

(** X1: after the entities are decoded, the token rules of [clean_text]
    (the retweet marker, URLs, mentions, hashtags) only delete characters:
    what they return is a sublist of the decoded text, in the same order. *)
Theorem tokens_only_deleted `{PyLib} (x t : str) :
  Html.unescape x = Ok t →
  ∃ y, strip_tokens x = Ok y ∧ y `sublist_of` t.
Proof.
  intros Ht. unfold strip_tokens. rewrite Ht. eexists. split; [done|].
  apply strip_markers_sublist.
Qed.

Lemma tokens_only_deleted_witness :
  ∃ y, strip_tokens (H := Latin.lib) (lit "RT @bob &amp; #Vote http://t.co/zz now") = Ok y
       ∧ y `sublist_of` lit "RT @bob & #Vote http://t.co/zz now".
Proof.
  apply (tokens_only_deleted (H := Latin.lib)). by vm_compute.
Defined.

(** X2: the retweet marker is removed at the start of the text only: what
    [RT_RE.sub("", text)] returns is a suffix of the text, so a later [rt]
    stays. *)
Theorem retweet_marker_only_at_start (text : str) :
  Re.sub RT_RE (λ _, []) text `suffix_of` text.
Proof. apply sub_anchored_suffix, rt_not_after_start. Qed.

(** X3: the cleaned text is empty exactly when the token rules leave nothing
    but white space.  (Lowering a character that is not white space never
    yields the empty string.) *)
Theorem clean_text_empty_iff `{PyLib} (x t : str) :
  lower_keeps_nonspace →
  strip_tokens x = Ok t →
  clean_text (PyStr x) = Ok [] ↔ Forall (λ c, is_space c = true) t.
Proof.
  intros Hns Ht. cbn [clean_text py_str]. rewrite Ht. split.
  - intros [= Hnil]. by apply normalize_space_nil.
  - intros Hblank. f_equal. by apply normalize_space_blank.
Qed.

Lemma clean_text_empty_iff_witness :
  strip_tokens (H := Latin.lib) (lit "RT @bob http://t.co/zz ") = Ok [32; 32]
  ∧ (clean_text (H := Latin.lib) (PyStr (lit "RT @bob http://t.co/zz ")) = Ok []
     ↔ Forall (λ c, is_space c = true) [32; 32]).
Proof.
  assert (strip_tokens (H := Latin.lib) (lit "RT @bob http://t.co/zz ") = Ok [32; 32])
    as Ht by (by vm_compute).
  split; [exact Ht|].
  exact (clean_text_empty_iff (H := Latin.lib) _ _ latin_keeps_nonspace Ht).
Defined.

(** X4: a text of white space only is cleaned to the empty string, whatever
    the character tables. *)
Theorem clean_text_blank `{PyLib} (x : str) :
  Forall (λ c, is_space c = true) x → clean_text (PyStr x) = Ok [].
Proof.
  intros Hx. cbn [clean_text py_str]. unfold strip_tokens.
  rewrite unescape_plain.
  2: { intros Hin. rewrite Forall_forall in Hx. by apply Hx in Hin. }
  f_equal. apply normalize_space_blank.
  apply Forall_forall. intros c Hc. rewrite Forall_forall in Hx.
  apply Hx. eapply elem_of_sublist; [exact Hc|apply strip_markers_sublist].
Qed.

Lemma clean_text_blank_witness :
  Forall (λ c, is_space c = true) [32; 9; 10; 0xA0; 0x3000]
  ∧ clean_text (H := Latin.lib) (PyStr [32; 9; 10; 0xA0; 0x3000]) = Ok [].
Proof.
  assert (Forall (λ c, is_space c = true) [32; 9; 10; 0xA0; 0x3000]) as Hx
    by (repeat constructor).
  split; [exact Hx|]. exact (clean_text_blank (H := Latin.lib) _ Hx).
Defined.

(** X5: the guard of [clean_text] catches [None] only.  A missing value
    (NaN, which is what [read_csv] yields for an empty cell) goes through
    [str()] and is cleaned to the text [nan], which is not empty. *)
Theorem clean_text_missing_value `{L : PyLib} :
  agrees_on basic_latin L Latin.lib → clean_text PyNaN = Ok (lit "nan").
Proof.
  intros Hagree. change (clean_text (PyStr (lit "nan")) = Ok (lit "nan")).
  rewrite (clean_text_agree basic_latin L Latin.lib Hagree _ (lit "nan"));
    [by vm_compute|by vm_compute|by vm_compute|by vm_compute|by apply Forall_basic_latin].
Qed.

Lemma clean_text_missing_value_witness :
  clean_text (H := Latin.lib) PyNaN = Ok (lit "nan").
Proof.
  exact (clean_text_missing_value (L := Latin.lib) (agrees_on_refl basic_latin Latin.lib)).
Defined.

(** * Frames, further *)

Lemma col_index_cons c x cols :
  col_index c (x :: cols) = if decide (x = c) then Some 0%nat else S <$> col_index c cols.
Proof.
  unfold col_index. simpl. destruct (decide (x = c)); [done|].
  by destruct (list_find _ cols) as [[j y]|].
Qed.

(** Looking a label up by its first position and reading the row along the
    labels give the same cell. *)
Lemma field_assoc df c row : field df c row = assoc_cell c (columns df) row.
Proof.
  unfold field. generalize (columns df) as cols. intros cols. revert row.
  induction cols as [|x cols IH]; intros row.
  - by destruct row.
  - rewrite col_index_cons.
    destruct row as [|v row]; cbn [assoc_cell];
      (destruct (decide (x = c)) as [->|Hne]; [done|]);
      rewrite <- IH; by destruct (col_index c cols).
Qed.

Lemma field_columns df1 df2 c row :
  columns df1 = columns df2 → field df1 c row = field df2 c row.
Proof. unfold field. by intros ->. Qed.

Lemma getitem_field df c :
  c ∈ columns df → getitem df c = Ok (map (field df c) (rows df)).
Proof.
  intros [i Hi]%col_index_elem_of. unfold getitem. rewrite Hi.
  by rewrite (field_index _ _ i).
Qed.

Lemma elem_of_select_map {A} (p : A → bool) (l : list A) x :
  x ∈ l → p x = true → x ∈ select (map p l) l.
Proof.
  induction l as [|y l IH]; simpl; [by intros ?%elem_of_nil|].
  intros [->|Hin]%elem_of_cons Hp.
  - rewrite Hp. apply list_elem_of_here.
  - destruct (p y); [apply list_elem_of_further|]; by apply IH.
Qed.

Lemma elem_of_select_inv {A} (p : A → bool) (l : list A) x :
  x ∈ select (map p l) l → x ∈ l ∧ p x = true.
Proof.
  intros Hx. split; [|by eapply select_mask_true].
  eapply elem_of_sublist; [exact Hx|apply select_sublist].
Qed.

Lemma select_all {A B} (p : A → bool) (l : list A) (l' : list B) :
  (∀ x, x ∈ l → p x = true) → length l' = length l → select (map p l) l' = l'.
Proof.
  revert l'. induction l as [|x l IH]; intros [|y l'] Hp Hlen; try done.
  simpl. rewrite Hp by apply list_elem_of_here. f_equal.
  apply IH; [|by injection Hlen]. intros z Hz. apply Hp. by apply list_elem_of_further.
Qed.

Lemma select_map {A B} (f : A → B) (mask : list bool) (l : list A) :
  select mask (map f l) = map f (select mask l).
Proof.
  revert mask. induction l as [|x l IH]; intros [|b mask]; simpl; try done.
  destruct b; simpl; by rewrite IH.
Qed.

(** Dropping and renaming columns whose new labels are distinct moves no
    cell to another label. *)
Lemma assoc_cell_select (f : str → str) (p : str → bool) c cols row :
  length row = length cols → c ∈ cols → p c = true →
  NoDup (map f (select (map p cols) cols)) →
  assoc_cell (f c) (map f (select (map p cols) cols)) (select (map p cols) row)
  = assoc_cell c cols row.
Proof.
  revert row. induction cols as [|x cols IH]; intros row Hlen Hin Hp Hnd;
    [by apply elem_of_nil in Hin|].
  destruct row as [|v row]; [done|]. injection Hlen as Hlen.
  cbn [map select] in *. destruct (p x) eqn:Hpx.
  - cbn [map assoc_cell] in *. apply NoDup_cons in Hnd as [Hfresh Hnd].
    destruct (decide (x = c)) as [->|Hne].
    + by rewrite decide_True.
    + apply elem_of_cons in Hin as [->|Hin]; [done|].
      rewrite decide_False; [by apply IH|].
      intros Heq. apply Hfresh. rewrite Heq. apply elem_of_map.
      exists c. split; [done|]. by apply elem_of_select_map.
  - cbn [assoc_cell]. destruct (decide (x = c)) as [->|Hne]; [congruence|].
    apply elem_of_cons in Hin as [->|Hin]; [done|]. by apply IH.
Qed.

(** ** The reconciled table *)

Lemma elem_of_filter_unnamed c cols :
  c ∈ List.filter is_unnamed cols ↔ c ∈ cols ∧ is_unnamed c = true.
Proof. by rewrite !list_elem_of_In, filter_In. Qed.

Lemma drop_mask cols :
  map (λ c, negb (bool_decide (c ∈ List.filter is_unnamed cols))) cols
  = map (λ c, negb (is_unnamed c)) cols.
Proof.
  apply map_ext_Forall, Forall_forall. intros c Hc. f_equal.
  destruct (is_unnamed c) eqn:Hu.
  - apply bool_decide_eq_true_2, elem_of_filter_unnamed. by split.
  - apply bool_decide_eq_false_2. intros [_ ?]%elem_of_filter_unnamed. congruence.
Qed.

(** The labels of the reconciled table are the new names of the raw labels
    that are not dropped. *)
Lemma reconcile_columns config raw c' :
  c' ∈ columns (reconcile config raw) →
  ∃ c, c ∈ columns raw ∧ is_unnamed c = false ∧ c' = default c (rename_map config !! c).
Proof.
  unfold reconcile, rename. cbn [columns]. intros (c & -> & Hc)%elem_of_map.
  exists c. split; [|split; [|done]].
  - revert Hc. case_bool_decide; [by apply drop_columns_sub|done].
  - revert Hc. change (List.filter _ (columns raw)) with (List.filter is_unnamed (columns raw)).
    case_bool_decide as Hd.
    + cbn [columns drop_columns]. intros [Hin Hp]%elem_of_select_inv.
      apply negb_true_iff, bool_decide_eq_false_1 in Hp.
      destruct (is_unnamed c) eqn:Hu; [|done]. exfalso. apply Hp.
      by apply elem_of_filter_unnamed.
    + intros Hin. destruct (is_unnamed c) eqn:Hu; [|done]. exfalso.
      assert (c ∈ List.filter is_unnamed (columns raw)) as Hc
        by (by apply elem_of_filter_unnamed).
      rewrite Hd in Hc. by apply elem_of_nil in Hc.
Qed.

(** On a table with one cell per column in every row, both branches of the
    test on [drop_cols] give the same frame. *)
Lemma reconcile_kept config raw :
  rect raw →
  reconcile config raw =
    {| columns :=
         map (λ c, default c (rename_map config !! c))
           (select (map (λ c, negb (is_unnamed c)) (columns raw)) (columns raw));
       rows := map (select (map (λ c, negb (is_unnamed c)) (columns raw))) (rows raw) |}.
Proof.
  intros Hrect. unfold reconcile.
  change (List.filter _ (columns raw)) with (List.filter is_unnamed (columns raw)).
  set (drop_cols := List.filter is_unnamed (columns raw)).
  assert (drop_columns drop_cols raw =
            {| columns := select (map (λ c, negb (is_unnamed c)) (columns raw)) (columns raw);
               rows := map (select (map (λ c, negb (is_unnamed c)) (columns raw))) (rows raw) |})
    as Hdrop.
  { unfold drop_columns, drop_cols. by rewrite drop_mask. }
  case_bool_decide as Hd; [by rewrite Hdrop|].
  unfold rename. cbn [columns rows].
  assert (∀ c, c ∈ columns raw → negb (is_unnamed c) = true) as Hall.
  { intros c Hc. destruct (is_unnamed c) eqn:Hu; [|done]. exfalso.
    assert (c ∈ drop_cols) as Hin by (by apply elem_of_filter_unnamed).
    rewrite Hd in Hin. by apply elem_of_nil in Hin. }
  rewrite select_all by done. f_equal.
  rewrite <- (map_id (rows raw)) at 1. apply map_ext_Forall.
  eapply Forall_impl; [exact Hrect|]. intros row Hlen. simpl. symmetry. by apply select_all.
Qed.

(** A label [text] of the reconciled table is the new name of the configured
    text column, kept, or of a raw column called [text]. *)
Lemma reconcile_text_kept config raw :
  lit "text" ∈ columns (reconcile config raw) →
  (text_col config ∈ columns raw ∧ is_unnamed (text_col config) = false)
  ∨ lit "text" ∈ columns raw.
Proof.
  intros (c & Hc & Hu & Heq)%reconcile_columns. unfold rename_map in Heq.
  destruct (decide (c = text_col config)) as [->|Hne]; [by left|].
  rewrite lookup_insert_ne in Heq by done.
  destruct (decide (c = date_col config)) as [->|Hne'].
  { rewrite lookup_insert_eq in Heq. by vm_compute in Heq. }
  rewrite lookup_insert_ne in Heq by done.
  destruct (decide (c = id_col config)) as [->|Hne''].
  { rewrite lookup_singleton_eq in Heq. by vm_compute in Heq. }
  rewrite lookup_singleton_ne in Heq by done. simpl in Heq. right. by rewrite Heq.
Qed.

(** * The pipeline of one source, further *)

Section Records.
Context `{PyLib} {D : Type}.
Variable detect : option (pyval → D → result str * D).
Variable read_csv : str → result DataFrame.

(** The canonical record of a cleaned row is the record of the reconciled
    row it comes from. *)
Lemma record_of_cleaned config df pre i row :
  columns pre = columns (stamp config df) →
  col_index (lit "text") (columns (stamp config df)) = Some i →
  length row = length (columns df) →
  record pre
    (<[i := PyStr (cleaned (cell_at i (stamp_row config df row)))]>
       (stamp_row config df row))
  = source_record config df row.
Proof.
  intros Hcols Hi Hlen.
  destruct (stamp_fields config df row Hlen) as (Hl & Hy & Hother).
  assert (length (stamp_row config df row) = length (columns (stamp config df))) as Hlen0.
  { unfold stamp_row, stamp. by do 2 apply setitem_row_length. }
  assert (∀ c x, field pre c x = field (stamp config df) c x) as Hf
    by (intros; by apply field_columns).
  unfold record, out_columns, source_record. cbn [map]. rewrite !Hf.
  rewrite (field_insert_eq _ (lit "text") i) by done.
  rewrite !(field_insert_ne _ (lit "text") i) by (done || lit_neq).
  rewrite Hl, Hy, (Hother (lit "tweet_id")) by lit_neq.
  by rewrite (stamped_text config df row i).
Qed.

(** The rows of the cleaned table come from rows of the reconciled table,
    in their order. *)
Lemma cleaned_rows_kept config raw d pre d' :
  rect raw → cleaned_rows detect config raw d = (Ok pre, d') →
  ∃ kept, kept `sublist_of` rows (reconcile config raw)
    ∧ map (record pre) (rows pre) = map (source_record config (reconcile config raw)) kept.
Proof.
  intros Hraw Hpre. unfold cleaned_rows in Hpre.
  assert (rect (reconcile config raw)) as Hrec by apply reconcile_rect, Hraw.
  set (rec := reconcile config raw) in *. set (df0 := stamp config rec) in *.
  apply bind_Ok in Hpre as (df1 & d1 & Hclean & (df2 & d2 & Heng & Hne)%bind_Ok).
  unfold lift in Hclean, Hne. injection Hclean as Hclean <-. injection Hne as Hne <-.
  destruct (col_index (lit "text") (columns df0)) as [i|] eqn:Hi.
  2: { apply col_index_None in Hi. by rewrite clean_column_Raise in Hclean. }
  apply (clean_column_Ok _ i _ Hi) in Hclean as [-> _].
  unfold filter_english, getitem in Heng. cbn [columns rows] in Heng. rewrite Hi in Heng.
  apply bind_Ok in Heng as (texts & d3 & Htexts & (mask & d4 & Hmask & Hret)%bind_Ok).
  unfold lift in Htexts. injection Htexts as <- <-.
  unfold ret in Hret. injection Hret as <- <-.
  unfold filter_nonempty, getitem in Hne. cbn [columns rows select_rows] in Hne.
  rewrite Hi in Hne. injection Hne as <-. clear Hmask.
  set (pre := select_rows _ _).
  assert (columns pre = columns df0) as Hcols by done.
  assert (rows pre =
            map (λ row, <[i := PyStr (cleaned (cell_at i (stamp_row config rec row)))]>
                          (stamp_row config rec row))
              (select (map truthy
                         (map (cell_at i)
                            (select mask
                               (map (λ row, <[i := PyStr (cleaned (cell_at i row))]> row)
                                  (rows df0)))))
                 (select mask (rows rec)))) as Hrows.
  { unfold pre. cbn [rows select_rows]. set (m2 := map truthy _).
    unfold df0. by rewrite stamp_rows, map_map, !select_map. }
  eexists. split; [|rewrite Hrows, map_map; apply map_ext_Forall].
  - etrans; apply select_sublist.
  - do 2 apply select_Forall. eapply Forall_impl; [exact Hrec|].
    intros row Hlen. cbn beta. by apply record_of_cleaned.
Qed.

(** When the cleaning stages return, [clean_text] has returned on the text
    of every row of the reconciled table. *)
Lemma cleaned_rows_cleanable config raw d pre d' :
  rect raw → cleaned_rows detect config raw d = (Ok pre, d') →
  cleanable (reconcile config raw).
Proof.
  intros Hraw Hpre. unfold cleaned_rows in Hpre.
  assert (rect (reconcile config raw)) as Hrec by apply reconcile_rect, Hraw.
  set (rec := reconcile config raw) in *. set (df0 := stamp config rec) in *.
  apply bind_Ok in Hpre as (df1 & d1 & Hclean & _).
  unfold lift in Hclean. injection Hclean as Hclean <-.
  destruct (col_index (lit "text") (columns df0)) as [i|] eqn:Hi.
  2: { apply col_index_None in Hi. by rewrite clean_column_Raise in Hclean. }
  apply (clean_column_Ok _ i _ Hi) in Hclean as [_ Hall].
  intros row Hrow.
  assert (length row = length (columns rec)) as Hlen by (by eapply Forall_forall in Hrec).
  rewrite <- (stamped_text config rec row i) by done. eexists.
  rewrite Forall_forall in Hall. apply Hall. unfold df0. rewrite stamp_rows.
  apply elem_of_map. by exists row.
Qed.

(** What [load_and_clean] returns, row by row. *)
Lemma load_and_clean_records config raw d out d' :
  read_csv (path config) = Ok raw → rect raw →
  load_and_clean detect read_csv config d = (Ok out, d') →
  columns out = out_columns
  ∧ cleanable (reconcile config raw)
  ∧ rows out `sublist_of`
      map (source_record config (reconcile config raw)) (rows (reconcile config raw)).
Proof.
  intros Hread Hraw Hout.
  destruct (load_and_clean_Ok _ _ _ _ _ _ _ Hread Hraw Hout) as (pre & Hpre & ->).
  split; [done|]. split; [by eapply cleaned_rows_cleanable|]. cbn [rows].
  destruct (cleaned_rows_kept _ _ _ _ _ Hraw Hpre) as (kept & Hkept & Hrec).
  rewrite <- select_map, Hrec.
  etrans; [apply select_sublist|]. by apply (fmap_sublist _ kept).
Qed.

(** X6: the records that [load_and_clean] returns are, in the order of the
    rows, records of rows of the reconciled table (the raw table without its
    unnamed columns, under the new labels): each holds the tweet id of its
    row (the empty string when the table has no such column), the cleaned
    text of its row, the label of the source and its year as a string.
    Nothing is reordered and nothing is added; and [clean_text] has returned
    on the text of every row of the table. *)
Theorem output_records config raw d out d' :
  read_csv (path config) = Ok raw → well_formed config raw →
  load_and_clean detect read_csv config d = (Ok out, d') →
  columns out = out_columns
  ∧ cleanable (reconcile config raw)
  ∧ rows out `sublist_of`
      map (source_record config (reconcile config raw)) (rows (reconcile config raw)).
Proof. intros Hread (_ & Hraw & _). by apply load_and_clean_records. Qed.

(** X7: a configured text column whose label is unnamed or blank is dropped
    before it is renamed, so that [load_and_clean] raises [KeyError] for
    [text] (unless a raw column is itself called [text]), although the
    export has the configured column. *)
Theorem unnamed_text_column_is_lost config raw :
  read_csv (path config) = Ok raw →
  is_unnamed (text_col config) = true → lit "text" ∉ columns raw →
  ∀ d, load_and_clean detect read_csv config d = (Raise (KeyError (lit "text")), d).
Proof.
  intros Hread Hu Htext d. unfold load_and_clean, cleaned_rows.
  rewrite Hread. unfold bind, lift.
  rewrite clean_column_Raise; [done|].
  rewrite stamp_text. intros [[_ ?]|?]%reconcile_text_kept; [congruence|done].
Qed.

End Records.

(** X8: reconciling moves no cell: a raw column that is not dropped holds the
    same cells under its new label, when the new labels are distinct. *)
Theorem reconcile_keeps_cells (config : Config) (raw : DataFrame) (c : str) :
  rect raw → NoDup (columns (reconcile config raw)) →
  c ∈ columns raw → is_unnamed c = false →
  getitem (reconcile config raw) (default c (rename_map config !! c)) = getitem raw c.
Proof.
  intros Hrect Hnd Hc Hu. rewrite reconcile_kept in * by done.
  set (f := λ c, default c (rename_map config !! c)) in *.
  set (p := λ c, negb (is_unnamed c)) in *.
  assert (p c = true) as Hp by (unfold p; by rewrite Hu).
  rewrite !getitem_field; [|done|].
  2: { cbn [columns]. apply elem_of_map. exists c. split; [done|].
       by apply elem_of_select_map. }
  f_equal. cbn [rows]. rewrite map_map. apply map_ext_Forall.
  eapply Forall_impl; [exact Hrect|]. intros row Hlen. cbn beta.
  rewrite !field_assoc. cbn [columns]. by apply (assoc_cell_select f p).
Qed.

Lemma apply_is_english_raise {D : Type} (det : pyval → D → result str * D) e texts :
  e ≠ LangDetectException →
  (∀ text d, ∃ d', det text d = (Raise e, d')) →
  (∃ t, t ∈ texts ∧ truthy t = true) →
  ∀ d, ∃ d', apply (is_english (Some det)) texts d = (Raise e, d').
Proof.
  intros He Hdet. induction texts as [|t texts IH]; intros (t0 & Hin & Ht) d.
  - by apply elem_of_nil in Hin.
  - cbn [apply]. unfold bind at 1. unfold is_english at 1.
    destruct (truthy t) eqn:Htr; cbn [negb].
    + destruct (Hdet t d) as [d1 Hd]. rewrite Hd. exists d1. by destruct e.
    + apply elem_of_cons in Hin as [->|Hin]; [congruence|].
      destruct (IH (ex_intro _ t0 (conj Hin Ht)) d) as [d1 Hd1].
      unfold bind. rewrite Hd1. by exists d1.
Qed.

(** X9: only detection failures are caught.  When every text of the table
    is one that [clean_text] returns on, the detector raises another
    exception on every text, and some row of the table has a cleaned text
    that is not empty, [load_and_clean] ends in that exception. *)
Theorem detector_error_propagates `{PyLib} {D : Type}
    (det : pyval → D → result str * D) (read_csv : str → result DataFrame)
    (config : Config) (raw : DataFrame) (e : exn) :
  read_csv (path config) = Ok raw → well_formed config raw →
  cleanable (reconcile config raw) →
  e ≠ LangDetectException →
  (∀ text d, ∃ d', det text d = (Raise e, d')) →
  lit "text" ∈ columns (reconcile config raw) →
  (∃ row t, row ∈ rows (reconcile config raw)
     ∧ clean_text (field (reconcile config raw) (lit "text") row) = Ok t ∧ t ≠ []) →
  ∀ d, ∃ d', load_and_clean (Some det) read_csv config d = (Raise e, d').
Proof.
  intros Hread (_ & Hraw & _) Hcl He Hdet Htext (row & t & Hrow & Ht & Hne) d.
  unfold load_and_clean. rewrite Hread. unfold bind at 1. unfold lift at 1.
  unfold bind at 1. unfold cleaned_rows.
  assert (rect (reconcile config raw)) as Hrec by apply reconcile_rect, Hraw.
  set (rec := reconcile config raw) in *. set (df0 := stamp config rec).
  apply (stamp_text config) in Htext. fold df0 in Htext.
  destruct (col_index_elem_of _ _ Htext) as [i Hi].
  unfold bind at 1. unfold lift at 1.
  rewrite (clean_column_total _ i Hi) by (by apply stamped_cleanable).
  unfold filter_english, getitem. cbn [columns rows]. rewrite Hi.
  unfold bind at 2. unfold lift at 1.
  destruct (apply_is_english_raise det e
              (map (cell_at i)
                 (map (λ row, <[i := PyStr (cleaned (cell_at i row))]> row) (rows df0)))
              He Hdet) with (d := d) as [d1 Hd1].
  - assert (length row = length (columns rec)) as Hlen by (by eapply Forall_forall in Hrec).
    assert (length (stamp_row config rec row) = length (columns df0)) as Hlen0.
    { unfold stamp_row, df0, stamp. by do 2 apply setitem_row_length. }
    exists (PyStr t). split.
    + apply elem_of_map. eexists. split; [|apply elem_of_map; eexists; split; [done|]].
      2: { unfold df0. rewrite stamp_rows. apply elem_of_map. by exists row. }
      cbn beta. apply col_index_Some in Hi as Hi'. destruct Hi' as [_ Hlt].
      rewrite cell_at_insert by lia. rewrite (stamped_text config rec row i) by done.
      unfold cleaned. by rewrite Ht.
    + simpl. by destruct t.
  - unfold bind. rewrite Hd1. by exists d1.
Qed.

(** ** The year as a string *)

Lemma digits_spec fuel n acc :
  0 ≤ n → n ≤ Z.of_nat fuel → (1 ≤ fuel)%nat →
  ∃ front k, digits fuel n acc = front ++ acc
    ∧ Forall (λ c, 48 ≤ c) front ∧ front ≠ []
    ∧ ∀ a, fold_left (λ acc c, acc * 10 + (c - 48)) front a = a * k + n.
Proof.
  revert n acc. induction fuel as [|f IH]; intros n acc Hn Hle Hf; [lia|].
  cbn [digits]. pose proof (Z.div_mod n 10 ltac:(lia)) as Hdiv.
  pose proof (Z.mod_pos_bound n 10 ltac:(lia)) as Hmod.
  destruct (Z.ltb_spec n 10) as [Hlt|Hge].
  - exists [48 + n mod 10], 10. split; [done|]. split; [repeat constructor; lia|].
    split; [done|]. intros a. simpl. rewrite Z.mod_small by lia. lia.
  - destruct (IH (n / 10) ((48 + n mod 10) :: acc)) as (front & k & Hd & Hall & Hne & Hfold);
      [lia..|].
    exists (front ++ [48 + n mod 10]), (k * 10). split; [by rewrite <- app_assoc|].
    split; [apply Forall_app; split; [done|repeat constructor; lia]|].
    split; [by destruct front|].
    intros a. rewrite fold_left_app, Hfold. simpl. lia.
Qed.

Lemma int_of_digits_str n : 0 ≤ n → int_of_digits (str_of_int n) = n.
Proof.
  intros Hn. unfold str_of_int, int_of_digits.
  destruct (Z.ltb_spec n 0) as [?|_]; [lia|].
  destruct (digits_spec (S (Z.to_nat n)) n [] Hn) as (front & k & -> & _ & _ & Hfold);
    [lia..|].
  rewrite app_nil_r, Hfold. lia.
Qed.

Lemma str_of_int_head n : head (str_of_int n) = Some 45 ↔ n < 0.
Proof.
  unfold str_of_int. destruct (Z.ltb_spec n 0) as [Hlt|Hge]; [done|].
  split; [|lia]. intros Hhead.
  destruct (digits_spec (S (Z.to_nat n)) n [] Hge) as (front & k & Hd & Hall & Hne & _);
    [lia..|].
  rewrite Hd, app_nil_r in Hhead. destruct front as [|c front]; [done|].
  injection Hhead as ->. apply Forall_cons in Hall as [? _]. lia.
Qed.

(** [str] is injective on the integers. *)
Lemma str_of_int_inj n m : 0 ≤ m → str_of_int n = str_of_int m → n = m.
Proof.
  intros Hm Heq. destruct (Z.ltb_spec n 0) as [Hlt|Hge].
  - apply str_of_int_head in Hlt. rewrite Heq in Hlt. apply str_of_int_head in Hlt. lia.
  - by rewrite <- (int_of_digits_str n), <- (int_of_digits_str m), Heq.
Qed.

(** * The batch *)

Lemma select_app {A} (m1 m2 : list bool) (l1 l2 : list A) :
  length m1 = length l1 → select (m1 ++ m2) (l1 ++ l2) = select m1 l1 ++ select m2 l2.
Proof.
  revert l1. induction m1 as [|b m1 IH]; intros [|x l1] Hlen; try done.
  simpl. injection Hlen as Hlen. rewrite IH by done. by destruct b.
Qed.

Lemma select_const {A} (p : A → bool) (b : bool) (l : list A) :
  Forall (λ x, p x = b) l → select (map p l) l = if b then l else [].
Proof.
  induction 1 as [|x l Hx _ IH]; simpl; [by destruct b|].
  rewrite Hx, IH. by destruct b.
Qed.

Lemma union_labels_canonical outs :
  outs ≠ [] → Forall (λ o, columns o = out_columns) outs → union_labels outs = out_columns.
Proof.
  intros Hne Hall. unfold union_labels.
  set (step := λ (acc : list str) c, if bool_decide (c ∈ acc) then acc else acc ++ [c]).
  assert (∀ os, Forall (λ o, columns o = out_columns) os →
            fold_left step (List.concat (map columns os)) out_columns = out_columns) as Hrest.
  { induction 1 as [|o os Ho _ IH]; [done|].
    cbn [map List.concat]. rewrite fold_left_app, Ho.
    by replace (fold_left step out_columns out_columns) with out_columns by (by vm_compute). }
  destruct Hall as [|o os Ho Hos]; [done|].
  cbn [map List.concat]. rewrite fold_left_app, Ho.
  replace (fold_left step out_columns []) with out_columns by (by vm_compute).
  by apply Hrest.
Qed.

Lemma reindex_canonical o :
  columns o = out_columns → Forall (λ r, length r = 4%nat) (rows o) →
  reindex out_columns o = rows o.
Proof.
  intros Hcols Hrows. unfold reindex. rewrite Hcols.
  rewrite <- (map_id (rows o)) at 2. apply map_ext_Forall.
  eapply Forall_impl; [exact Hrows|]. intros r Hr. cbn beta.
  destruct r as [|a [|b [|c [|d [|]]]]]; try done.
Qed.

Lemma pd_concat_canonical outs :
  outs ≠ [] →
  Forall (λ o, columns o = out_columns ∧ Forall (λ r, length r = 4%nat) (rows o)) outs →
  pd_concat outs = Ok (canonical_frame (List.concat (map rows outs))).
Proof.
  intros Hne Hall. unfold pd_concat. destruct outs as [|o os]; [done|].
  rewrite union_labels_canonical; [|done|].
  2: { eapply Forall_impl; [exact Hall|]. by intros ? [? _]. }
  unfold canonical_frame. do 3 f_equal. apply map_ext_Forall.
  eapply Forall_impl; [exact Hall|]. intros o' [? ?]. by apply reindex_canonical.
Qed.

Lemma year_rows_canonical y files outs :
  0 ≤ y →
  Forall2 (λ c o, Forall (λ r, cell_at 3 r = PyStr (str_of_int (year c))) (rows o))
    files outs →
  year_rows (str_of_int y) (canonical_frame (List.concat (map rows outs)))
  = Ok (canonical_frame (rows_of_year y files outs)).
Proof.
  intros Hy Hall. unfold year_rows, getitem, canonical_frame. cbn [columns rows].
  change (col_index (lit "year") out_columns) with (Some 3%nat).
  unfold select_rows, eq_str. cbn [columns rows]. do 2 f_equal.
  rewrite map_map. unfold rows_of_year.
  induction Hall as [|c o files outs Ho _ IH]; [done|].
  cbn [map List.concat zip_with]. rewrite map_app, select_app by (by rewrite length_map).
  rewrite IH. f_equal.
  rewrite (select_const _ (bool_decide (year c = y))); [done|].
  eapply Forall_impl; [exact Ho|]. intros r Hr. cbn beta. rewrite Hr.
  apply bool_decide_ext. split; [intros [= Heq]; by apply str_of_int_inj|by intros ->].
Qed.

Section BatchFacts.
Context `{PyLib} {D : Type}.
Variable detect : option (pyval → D → result str * D).
Variable read_csv : str → result DataFrame.

Lemma main_loop_app pre rest cleaned log d outs d1 :
  apply (load_and_clean detect read_csv) pre d = (Ok outs, d1) →
  main_loop detect read_csv (pre ++ rest) cleaned log d
  = main_loop detect read_csv rest (cleaned ++ outs) (log ++ source_writes pre outs) d1.
Proof.
  revert cleaned log d outs d1.
  induction pre as [|c pre IH]; intros cleaned log d outs d1; cbn [apply].
  - intros [= <- <-]. simpl. by rewrite !app_nil_r.
  - intros (o & d2 & Ho & (os & d3 & Hos & Hret)%bind_Ok)%bind_Ok.
    unfold ret in Hret. injection Hret as <- <-.
    cbn [app main_loop]. rewrite Ho, (IH _ _ _ _ _ Hos).
    unfold source_writes. cbn [zip_with]. by rewrite <- !app_assoc.
Qed.

Lemma main_loop_Ok files cleaned log d outs d' :
  apply (load_and_clean detect read_csv) files d = (Ok outs, d') →
  main_loop detect read_csv files cleaned log d
  = (Ok (cleaned ++ outs), d', log ++ source_writes files outs).
Proof.
  intros Hload. rewrite <- (app_nil_r files) at 1.
  by rewrite (main_loop_app _ _ _ _ _ _ _ Hload).
Qed.

Lemma main_loop_Raise files cleaned log d e d' :
  apply (load_and_clean detect read_csv) files d = (Raise e, d') →
  ∃ log', main_loop detect read_csv files cleaned log d = (Raise e, d', log').
Proof.
  revert cleaned log d. induction files as [|c files IH]; intros cleaned log d; [done|].
  cbn [apply main_loop]. unfold bind at 1.
  destruct (load_and_clean detect read_csv c d) as [[o|e0] d1] eqn:Ho.
  - unfold bind. destruct (apply _ files d1) as [[os|e1] d2] eqn:Hos; [done|].
    intros [= <- <-]. by apply IH.
  - intros [= <- <-]. by eexists.
Qed.

(** The frames of the sources: the four canonical columns, and in every
    record the year of the source. *)
Lemma sources_frames files d outs d' :
  (∀ c, c ∈ files → ∃ raw, read_csv (path c) = Ok raw ∧ well_formed c raw) →
  apply (load_and_clean detect read_csv) files d = (Ok outs, d') →
  Forall2 (λ c o, columns o = out_columns
                  ∧ Forall (λ r, length r = 4%nat
                                 ∧ cell_at 3 r = PyStr (str_of_int (year c))) (rows o))
    files outs.
Proof.
  revert d outs. induction files as [|c files IH]; intros d outs Hwf; cbn [apply].
  - intros [= <- _]. constructor.
  - intros (o & d2 & Ho & (os & d3 & Hos & Hret)%bind_Ok)%bind_Ok.
    unfold ret in Hret. injection Hret as <- <-.
    constructor; [|eapply IH; [|exact Hos]; intros c' Hc'; apply Hwf; by right].
    destruct (Hwf c) as (raw & Hread & _ & Hraw & _); [by left|].
    destruct (load_and_clean_records _ _ _ _ _ _ _ Hread Hraw Ho) as (Hcols & _ & Hsub).
    split; [done|]. apply Forall_forall. intros r Hr.
    pose proof (elem_of_sublist _ _ _ Hr Hsub) as (row & -> & _)%elem_of_map. done.
Qed.

Lemma main_on_Ok files d outs d' :
  files ≠ [] →
  (∀ c, c ∈ files → ∃ raw, read_csv (path c) = Ok raw ∧ well_formed c raw) →
  apply (load_and_clean detect read_csv) files d = (Ok outs, d') →
  main_on detect read_csv files d =
    (Ok tt, d',
     Mkdir OUTPUT_DIR :: source_writes files outs
       ++ [ ToCsv (lit "tweets_all_cleaned.csv")
              (canonical_frame (List.concat (map rows outs)));
            ToCsv (lit "tweets_2020_cleaned.csv")
              (canonical_frame (rows_of_year 2020 files outs));
            ToCsv (lit "tweets_2024_cleaned.csv")
              (canonical_frame (rows_of_year 2024 files outs)) ]).
Proof.
  intros Hne Hwf Hload. pose proof (sources_frames _ _ _ _ Hwf Hload) as Hframes.
  unfold main_on. rewrite (main_loop_Ok _ _ _ _ _ _ Hload). cbn [app].
  rewrite pd_concat_canonical.
  2: { intros ->. apply Forall2_nil_inv_r in Hframes. done. }
  2: { apply Forall2_Forall_r with (P := λ c o, columns o = out_columns
                                            ∧ Forall (λ r, length r = 4%nat) (rows o))
         (l := files); [|by apply Forall_true].
       eapply Forall2_impl; [exact Hframes|]. intros c o [? Hrows]. split; [done|].
       eapply Forall_impl; [exact Hrows|]. by intros r [? _]. }
  assert (Forall2 (λ c o, Forall (λ r, cell_at 3 r = PyStr (str_of_int (year c))) (rows o))
            files outs) as Hyears.
  { eapply Forall2_impl; [exact Hframes|]. intros c o [_ Hrows].
    eapply Forall_impl; [exact Hrows|]. by intros r [_ ?]. }
  change (lit "2020") with (str_of_int 2020). change (lit "2024") with (str_of_int 2024).
  rewrite !(year_rows_canonical _ files) by (done || lia).
  by rewrite <- !app_assoc.
Qed.

(** X10: when every source loads, [main] creates the output directory,
    writes one file per source in the order of the sources, then the file
    of all records (the records of the sources one after the other, under
    the four canonical columns), then the file of the sources of 2020 and
    the file of the sources of 2024. *)
Theorem main_writes files d outs d' :
  files ≠ [] →
  (∀ c, c ∈ files → ∃ raw, read_csv (path c) = Ok raw ∧ well_formed c raw) →
  apply (load_and_clean detect read_csv) files d = (Ok outs, d') →
  main_on detect read_csv files d =
    (Ok tt, d',
     Mkdir OUTPUT_DIR :: source_writes files outs
       ++ [ ToCsv (lit "tweets_all_cleaned.csv")
              (canonical_frame (List.concat (map rows outs)));
            ToCsv (lit "tweets_2020_cleaned.csv")
              (canonical_frame (rows_of_year 2020 files outs));
            ToCsv (lit "tweets_2024_cleaned.csv")
              (canonical_frame (rows_of_year 2024 files outs)) ]).
Proof. apply main_on_Ok. Qed.

(** X11: with the sources of [FILES], every record of the combined file is
    in exactly one of the two files by year: the combined records are the
    records of 2020 followed by the records of 2024. *)
Theorem main_splits_by_year d d' log :
  (∀ c, c ∈ FILES → ∃ raw, read_csv (path c) = Ok raw ∧ well_formed c raw) →
  main detect read_csv d = (Ok tt, d', log) →
  ∃ per_source combined combined_2020 combined_2024,
    log = Mkdir OUTPUT_DIR :: per_source
            ++ [ ToCsv (lit "tweets_all_cleaned.csv") combined;
                 ToCsv (lit "tweets_2020_cleaned.csv") combined_2020;
                 ToCsv (lit "tweets_2024_cleaned.csv") combined_2024 ]
    ∧ length per_source = 4%nat
    ∧ rows combined = rows combined_2020 ++ rows combined_2024.
Proof.
  intros Hwf. unfold main.
  destruct (apply (load_and_clean detect read_csv) FILES d) as [[outs|e] d1] eqn:Hload.
  - pose proof (sources_frames _ _ _ _ Hwf Hload) as Hframes.
    rewrite (main_on_Ok FILES d outs d1) by done. intros [= <- <-].
    eexists _, _, _, _. split; [reflexivity|].
    apply Forall2_length in Hframes.
    destruct outs as [|o1 [|o2 [|o3 [|o4 [|]]]]]; try done.
    split; [done|]. unfold rows_of_year. simpl. by rewrite !app_nil_r, <- !app_assoc.
  - destruct (main_loop_Raise FILES [] [Mkdir OUTPUT_DIR] d e d1 Hload) as [log' Hloop].
    unfold main_on. by rewrite Hloop.
Qed.

(** X12: when a source fails to load, [main] ends in that error at once,
    with the detector as the failing source left it: the files of the
    sources before it have been written, and no file of a later source and
    none of the three combined files is written. *)
Theorem main_stops_at_first_failure pre c post d outs d1 e d2 :
  apply (load_and_clean detect read_csv) pre d = (Ok outs, d1) →
  load_and_clean detect read_csv c d1 = (Raise e, d2) →
  main_on detect read_csv (pre ++ c :: post) d
  = (Raise e, d2, Mkdir OUTPUT_DIR :: source_writes pre outs).
Proof.
  intros Hpre Hc. unfold main_on.
  rewrite (main_loop_app _ _ _ _ _ _ _ Hpre). cbn [main_loop]. by rewrite Hc.
Qed.

End BatchFacts.

(** * The detector and the batch, further *)

Lemma apply_ext {D A B : Type} (f g : A → M (D := D) B) (l : list A) :
  (∀ x, x ∈ l → ∀ d, f x d = g x d) → ∀ d, apply f l d = apply g l d.
Proof.
  induction l as [|x l IH]; intros Hfg d; [done|].
  cbn [apply]. unfold bind at 1 3. rewrite Hfg by apply list_elem_of_here.
  destruct (g x d) as [[y|e] d1]; [|done].
  unfold bind. rewrite IH; [done|]. intros z Hz. apply Hfg. by apply list_elem_of_further.
Qed.

(** X13: the detector is consulted on cleaned texts that are not empty, and
    on nothing else: two detectors that agree on every string that is not
    empty give the same result, in the same state. *)
Theorem detector_sees_nonempty_texts_only `{PyLib} {D : Type}
    (det1 det2 : pyval → D → result str * D) (read_csv : str → result DataFrame)
    (config : Config) (raw : DataFrame) :
  read_csv (path config) = Ok raw → well_formed config raw →
  (∀ s d, s ≠ [] → det1 (PyStr s) d = det2 (PyStr s) d) →
  ∀ d, load_and_clean (Some det1) read_csv config d
       = load_and_clean (Some det2) read_csv config d.
Proof.
  intros Hread (_ & Hraw & _) Hagree d.
  assert (cleaned_rows (Some det1) config raw d = cleaned_rows (Some det2) config raw d)
    as Heq.
  { unfold cleaned_rows. set (df0 := stamp config (reconcile config raw)).
    assert (rect df0) as Hr0 by apply stamp_rect, reconcile_rect, Hraw.
    destruct (col_index (lit "text") (columns df0)) as [i|] eqn:Hi.
    2: { apply col_index_None in Hi. unfold bind, lift. by rewrite clean_column_Raise. }
    unfold bind at 1 3. unfold lift at 1 3.
    destruct (clean_column df0) as [df1|e] eqn:Hc; [|done].
    apply (clean_column_Ok _ i _ Hi) in Hc as [-> _].
    unfold filter_english, getitem, bind, lift. cbn [columns rows]. rewrite Hi.
    rewrite (apply_ext (is_english (Some det1)) (is_english (Some det2))); [done|].
    intros t (r & -> & (r0 & -> & Hin)%elem_of_map)%elem_of_map d0.
    assert (length r0 = length (columns df0)) as Hlen by (by eapply Forall_forall in Hr0).
    apply col_index_Some in Hi as [_ Hlt]. rewrite cell_at_insert by lia.
    unfold is_english. destruct (cleaned (cell_at i r0)) as [|c s]; [done|].
    cbn [truthy negb]. by rewrite Hagree. }
  unfold load_and_clean, bind, lift. by rewrite Hread, Heq.
Qed.

Section BatchRuns.
Context `{PyLib} {D : Type}.
Variable detect : option (pyval → D → result str * D).
Variable read_csv : str → result DataFrame.

Lemma load_and_clean_total config raw d :
  read_csv (path config) = Ok raw → rect raw → only_detection_failures detect →
  lit "text" ∈ columns (reconcile config raw) → cleanable (reconcile config raw) →
  ∃ out d', load_and_clean detect read_csv config d = (Ok out, d').
Proof.
  intros Hread Hraw Hdet Htext Hcl.
  destruct (cleaned_rows_total detect config raw d Hraw Hdet Htext Hcl) as (pre & d' & Hpre).
  destruct (cleaned_rows_Ok _ _ _ _ _ _ Hraw Hpre) as (Hcols & Hrect & Htext' & _).
  destruct (cleaned_rows_canonical _ _ _ _ _ _ Hraw Hpre) as (Hlabel & Hyear & _).
  unfold load_and_clean. rewrite Hread. unfold bind at 1. unfold lift at 1.
  unfold bind at 1. rewrite Hpre. unfold bind, lift.
  rewrite deduplicate_Ok by done. rewrite finish_Ok; [by eexists _, _| |done..].
  unfold rect. cbn [rows columns select_rows]. by apply select_Forall.
Qed.

Lemma apply_load_total files :
  only_detection_failures detect →
  (∀ c, c ∈ files →
     ∃ raw, read_csv (path c) = Ok raw ∧ well_formed c raw
            ∧ lit "text" ∈ columns (reconcile c raw) ∧ cleanable (reconcile c raw)) →
  ∀ d, ∃ outs d', apply (load_and_clean detect read_csv) files d = (Ok outs, d').
Proof.
  intros Hdet. induction files as [|c files IH]; intros Hwf d; cbn [apply].
  - by eexists _, _.
  - destruct (Hwf c) as (raw & Hread & (_ & Hraw & _) & Htext & Hcl); [by left|].
    destruct (load_and_clean_total c raw d Hread Hraw Hdet Htext Hcl) as (o & d1 & Ho).
    destruct (IH (λ c' Hc', Hwf c' (list_elem_of_further _ _ _ Hc')) d1) as (os & d2 & Hos).
    unfold bind. rewrite Ho, Hos. by eexists _, _.
Qed.

(** X14: [main] succeeds when every source is an export with a row, one
    cell per column, distinct reconciled labels and a text column, whose
    texts are all texts that [clean_text] returns on, and the detector raises
    nothing but detection failures.  It then creates the directory, writes
    one file per source and the three combined files, in this order. *)
Theorem main_succeeds files :
  files ≠ [] → only_detection_failures detect →
  (∀ c, c ∈ files →
     ∃ raw, read_csv (path c) = Ok raw ∧ well_formed c raw
            ∧ lit "text" ∈ columns (reconcile c raw) ∧ cleanable (reconcile c raw)) →
  ∀ d, ∃ d' outs,
    length outs = length files
    ∧ main_on detect read_csv files d =
        (Ok tt, d',
         Mkdir OUTPUT_DIR :: source_writes files outs
           ++ [ ToCsv (lit "tweets_all_cleaned.csv")
                  (canonical_frame (List.concat (map rows outs)));
                ToCsv (lit "tweets_2020_cleaned.csv")
                  (canonical_frame (rows_of_year 2020 files outs));
                ToCsv (lit "tweets_2024_cleaned.csv")
                  (canonical_frame (rows_of_year 2024 files outs)) ]).
Proof.
  intros Hne Hdet Hwf d.
  destruct (apply_load_total files Hdet Hwf d) as (outs & d' & Hload).
  assert (∀ c, c ∈ files → ∃ raw, read_csv (path c) = Ok raw ∧ well_formed c raw) as Hwf'.
  { intros c Hc. destruct (Hwf c Hc) as (raw & ? & ? & _). by exists raw. }
  pose proof (sources_frames _ _ _ _ _ _ Hwf' Hload) as Hlen%Forall2_length.
  exists d', outs. split; [done|]. by apply main_on_Ok.
Qed.

End BatchRuns.

(** ** The further properties on the sample exports *)

Lemma reconcile_keeps_cells_witness :
  getitem (reconcile Sample.democrat Sample.democrat_2020) (lit "text")
  = getitem Sample.democrat_2020 (lit "tweet").
Proof.
  apply (reconcile_keeps_cells Sample.democrat Sample.democrat_2020 (lit "tweet")).
  - apply democrat_2020_well_formed.
  - apply democrat_2020_well_formed.
  - apply (bool_decide_unpack _). by vm_compute.
  - by vm_compute.
Defined.

Lemma output_records_witness :
  columns Sample.democrat_2020_cleaned = out_columns
  ∧ cleanable (H := Latin.lib) (reconcile Sample.democrat Sample.democrat_2020)
  ∧ rows Sample.democrat_2020_cleaned `sublist_of`
      map (source_record (H := Latin.lib) Sample.democrat
             (reconcile Sample.democrat Sample.democrat_2020))
        (rows (reconcile Sample.democrat Sample.democrat_2020)).
Proof.
  exact (output_records (H := Latin.lib) (Some Sample.detect) Sample.full_export
           Sample.democrat Sample.democrat_2020 0%nat _ _
           eq_refl democrat_2020_well_formed democrat_2020_run).
Defined.

Lemma unnamed_text_column_is_lost_witness :
  text_col Sample2.unnamed_config ∈ columns Sample2.unnamed_text
  ∧ ∀ d : nat,
      load_and_clean (H := Latin.lib) (Some Sample.detect) Sample2.export_unnamed
        Sample2.unnamed_config d
      = (Raise (KeyError (lit "text")), d).
Proof.
  split; [apply (bool_decide_unpack _); by vm_compute|].
  apply (unnamed_text_column_is_lost (H := Latin.lib) (Some Sample.detect)
           Sample2.export_unnamed Sample2.unnamed_config Sample2.unnamed_text eq_refl);
    [by vm_compute|apply (bool_decide_unpack _); by vm_compute].
Defined.

Lemma detector_error_propagates_witness :
  ∃ d',
    load_and_clean (H := Latin.lib) (Some Sample2.broken_detect) Sample.full_export
      Sample.democrat 0%nat
    = (Raise (OtherError (lit "RuntimeError")), d').
Proof.
  refine (detector_error_propagates (H := Latin.lib) Sample2.broken_detect
            Sample.full_export Sample.democrat Sample.democrat_2020
            (OtherError (lit "RuntimeError")) eq_refl democrat_2020_well_formed
            democrat_2020_cleanable _ _ _ _ 0%nat).
  - done.
  - intros text d. by eexists.
  - apply (bool_decide_unpack _). by vm_compute.
  - exists [Sample.s "11"; Sample.s "Go vote today http://x.co/a"; Sample.s "2020-10-01"],
      (lit "go vote today").
    split; [apply (bool_decide_unpack _); by vm_compute|]. split; by vm_compute.
Defined.

Lemma all_exports_well_formed c :
  c ∈ FILES → ∃ raw, Sample2.all_exports (path c) = Ok raw ∧ well_formed c raw.
Proof.
  intros Hc. unfold FILES in Hc.
  repeat (apply elem_of_cons in Hc as [->|Hc]); [..|by apply elem_of_nil in Hc];
    (eexists; split; [reflexivity|]);
    (split; [apply (bool_decide_unpack _); by vm_compute|]);
    (split; [unfold rect; by repeat constructor|done]).
Qed.

Lemma all_exports_loads :
  apply (load_and_clean (H := Latin.lib) (Some Sample.detect) Sample2.all_exports) FILES 0%nat
  = (Ok Sample2.cleaned, 9%nat).
Proof. by vm_compute. Qed.

Lemma all_exports_main :
  main (H := Latin.lib) (Some Sample.detect) Sample2.all_exports 0%nat
  = (Ok tt, 9%nat, Sample2.main_log).
Proof. by vm_compute. Qed.

Lemma main_writes_witness :
  main_on (H := Latin.lib) (Some Sample.detect) Sample2.all_exports FILES 0%nat =
    (Ok tt, 9%nat,
     Mkdir OUTPUT_DIR :: source_writes FILES Sample2.cleaned
       ++ [ ToCsv (lit "tweets_all_cleaned.csv")
              (canonical_frame (List.concat (map rows Sample2.cleaned)));
            ToCsv (lit "tweets_2020_cleaned.csv")
              (canonical_frame (rows_of_year 2020 FILES Sample2.cleaned));
            ToCsv (lit "tweets_2024_cleaned.csv")
              (canonical_frame (rows_of_year 2024 FILES Sample2.cleaned)) ]).
Proof.
  apply (main_writes (H := Latin.lib) (Some Sample.detect) Sample2.all_exports FILES
           0%nat Sample2.cleaned 9%nat);
    [done|exact all_exports_well_formed|exact all_exports_loads].
Defined.

Lemma main_splits_by_year_witness :
  ∃ per_source combined combined_2020 combined_2024,
    Sample2.main_log
    = Mkdir OUTPUT_DIR :: per_source
        ++ [ ToCsv (lit "tweets_all_cleaned.csv") combined;
             ToCsv (lit "tweets_2020_cleaned.csv") combined_2020;
             ToCsv (lit "tweets_2024_cleaned.csv") combined_2024 ]
    ∧ length per_source = 4%nat
    ∧ rows combined = rows combined_2020 ++ rows combined_2024.
Proof.
  exact (main_splits_by_year (H := Latin.lib) (Some Sample.detect) Sample2.all_exports
           0%nat 9%nat Sample2.main_log all_exports_well_formed all_exports_main).
Defined.

Lemma main_stops_at_first_failure_witness :
  main_on (H := Latin.lib) (Some Sample.detect) Sample2.first_only
    [Sample.democrat; Sample2.republican] 0%nat
  = (Raise (OtherError (lit "FileNotFoundError")), 5%nat,
     [Mkdir OUTPUT_DIR; ToCsv (out_name Sample.democrat) Sample.democrat_2020_cleaned]).
Proof.
  apply (main_stops_at_first_failure (H := Latin.lib) (Some Sample.detect)
           Sample2.first_only [Sample.democrat] Sample2.republican [] 0%nat
           [Sample.democrat_2020_cleaned] 5%nat (OtherError (lit "FileNotFoundError")) 5%nat);
    by vm_compute.
Defined.

Lemma detector_sees_nonempty_texts_only_witness :
  load_and_clean (H := Latin.lib) (Some Sample.detect) Sample.full_export Sample.democrat
    0%nat
  = load_and_clean (H := Latin.lib) (Some Sample2.strict_detect) Sample.full_export
      Sample.democrat 0%nat.
Proof.
  refine (detector_sees_nonempty_texts_only (H := Latin.lib) Sample.detect
            Sample2.strict_detect Sample.full_export Sample.democrat Sample.democrat_2020
            eq_refl democrat_2020_well_formed _ 0%nat).
  intros s d Hs. by destruct s.
Defined.

Lemma all_exports_have_text c :
  c ∈ FILES →
  ∃ raw, Sample2.all_exports (path c) = Ok raw ∧ well_formed c raw
         ∧ lit "text" ∈ columns (reconcile c raw)
         ∧ cleanable (H := Latin.lib) (reconcile c raw).
Proof.
  intros Hc. destruct (all_exports_well_formed c Hc) as (raw & Hread & Hwf).
  exists raw. split; [done|]. split; [done|].
  unfold FILES in Hc.
  repeat (apply elem_of_cons in Hc as [->|Hc]); try (by apply elem_of_nil in Hc);
    injection Hread as <-;
    (split; [apply (bool_decide_unpack _); by vm_compute|]);
    rows_cleanable.
Qed.

Lemma main_succeeds_witness :
  ∃ d' outs,
    length outs = length FILES
    ∧ main_on (H := Latin.lib) (Some Sample.detect) Sample2.all_exports FILES 0%nat =
        (Ok tt, d',
         Mkdir OUTPUT_DIR :: source_writes FILES outs
           ++ [ ToCsv (lit "tweets_all_cleaned.csv")
                  (canonical_frame (List.concat (map rows outs)));
                ToCsv (lit "tweets_2020_cleaned.csv")
                  (canonical_frame (rows_of_year 2020 FILES outs));
                ToCsv (lit "tweets_2024_cleaned.csv")
                  (canonical_frame (rows_of_year 2024 FILES outs)) ]).
Proof.
  refine (main_succeeds (H := Latin.lib) (Some Sample.detect) Sample2.all_exports FILES
            _ sample_detect_only_failures all_exports_have_text 0%nat).
  done.
Defined.
